(** * Stream-job orchestration of the hazard-detection service

    A shallow embedding of [main.py] (class [MainApp]): the configuration
    fingerprint, the reconciliation pass [reload_configurations], the
    per-frame notification policy of [process_single_stream] and the
    worker wrapper [process_streams].

    Conventions.
    - A Python [str] is a [string]; its characters are read as the code
      points below 256.
    - A Python [dict] is an association list in insertion order.
    - A key of a configuration record that may be absent is an [option];
      a value that may be [None] is an [option] again.
    - A timestamp or a duration of [main.py] (a Python [float]) is a
      rational number ([Q]); [int(x)] truncates towards zero.
    - The floats of a label file, which [visualise_bounding_boxes.py]
      multiplies, adds and subtracts, are binary64 floats
      ([PrimFloat.float]) with their rounding, their infinities and
      their NaN. *)

From Stdlib Require Import String Ascii List Bool ZArith NArith QArith Qround Lia Lqa.
From Stdlib Require PrimFloat FloatOps SpecFloat Uint63.
Import ListNotations.

Local Close Scope Q_scope.
Local Open Scope string_scope.

(* ================================================================= *)
(** * Part I: definitions *)
(* ================================================================= *)

(** ** Exceptions *)

Inductive exn : Type :=
| KeyError (key : string).

Inductive result (A : Type) : Type :=
| Ok (a : A)
| Raise (e : exn).
Arguments Ok {A} a.
Arguments Raise {A} e.

(** [d[key]] on a record field that may be absent. *)
Definition subscript {A} (key : string) (field : option A) : result A :=
  match field with
  | Some a => Ok a
  | None => Raise (KeyError key)
  end.

(** [d.get(key, default)]. *)
Definition get_default {A} (field : option A) (default : A) : A :=
  match field with
  | Some a => a
  | None => default
  end.

(** [d.get(key)] on a field whose value may itself be [None]. *)
Definition get_none {A} (field : option (option A)) : option A :=
  match field with
  | Some v => v
  | None => None
  end.

(** ** [repr] and [str] of the Python values a configuration holds *)

Module PyRepr.

Definition squote : ascii := "'"%char.
Definition dquote : ascii := "034"%char.
Definition backslash : ascii := "\"%char.

Definition hex_digit (n : N) : ascii :=
  if (n <? 10)%N then ascii_of_N (48 + n) else ascii_of_N (87 + n).

(** [Py_UNICODE_ISPRINTABLE] on the code points below 256. *)
Definition is_printable (c : ascii) : bool :=
  let n := N_of_ascii c in
  ((32 <=? n) && (n <? 127))%N || ((161 <=? n) && negb (n =? 173))%N.

(** One character inside a string literal quoted with [q]. *)
Definition repr_char (q c : ascii) : string :=
  if (c =? q)%char || (c =? backslash)%char then String backslash (String c "")
  else if (c =? "009")%char then "\t"
  else if (c =? "010")%char then "\n"
  else if (c =? "013")%char then "\r"
  else if is_printable c then String c ""
  else
    let n := N_of_ascii c in
    String backslash
      (String "x" (String (hex_digit (n / 16)) (String (hex_digit (n mod 16)) ""))).

Fixpoint repr_chars (q : ascii) (s : string) : string :=
  match s with
  | EmptyString => ""
  | String c s' => repr_char q c ++ repr_chars q s'
  end.

Fixpoint mem_char (c : ascii) (s : string) : bool :=
  match s with
  | EmptyString => false
  | String d s' => (c =? d)%char || mem_char c s'
  end.

(** The quote [repr] picks: double quotes only when the string holds a
    single quote and no double quote. *)
Definition choose_quote (s : string) : ascii :=
  if mem_char squote s && negb (mem_char dquote s) then dquote else squote.

Definition repr_str (s : string) : string :=
  let q := choose_quote s in
  String q (repr_chars q s ++ String q "").

Definition repr_opt_str (o : option string) : string :=
  match o with
  | None => "None"
  | Some s => repr_str s
  end.

Definition repr_bool (b : bool) : string :=
  if b then "True" else "False".

Definition repr_item (kv : string * string) : string :=
  repr_str (fst kv) ++ ": " ++ repr_str (snd kv).

(** [sep.join(items)] is [String.concat sep items]. *)
Definition join (sep : string) (l : list string) : string :=
  String.concat sep l.


(** [repr] of a [dict[str, str]]. *)
Definition repr_dict (d : list (string * string)) : string :=
  "{" ++ join ", " (map repr_item d) ++ "}".

Definition repr_opt_dict (o : option (list (string * string))) : string :=
  match o with
  | None => "None"
  | Some d => repr_dict d
  end.

(** [str] of a [list[str]]. *)
Definition repr_list (l : list string) : string :=
  "[" ++ join ", " (map repr_str l) ++ "]".

(** [f"{x}"] for a value that is a string or [None]. *)
Definition format_opt_str (o : option string) : string :=
  match o with
  | None => "None"
  | Some s => s
  end.




End PyRepr.

(** ** Configuration records *)

(** [AppConfig] is a [TypedDict] with [total=False]: every key may be
    absent (outer [option]); [site], [notifications], [expire_date],
    [line_token] and [language] may also be [None] (inner [option]). *)
Record AppConfig : Type := mkAppConfig {
  video_url : option string;
  model_key : option string;
  site : option (option string);
  stream_name : option string;
  notifications : option (option (list (string * string)));
  detect_with_server : option bool;
  expire_date : option (option string);
  line_token : option (option string);
  language : option (option string)
}.

Notation "x <- m ;; k" :=
  (match m with
   | Ok x => k
   | Raise e => Raise e
   end) (at level 60, m at next level, right associativity).

(** The dictionary [relevant_config] built by [compute_config_hash]. *)
Record RelevantConfig : Type := mkRelevant {
  rc_video_url : string;
  rc_model_key : string;
  rc_site : option string;
  rc_stream_name : string;
  rc_notifications : option (list (string * string));
  rc_detect_with_server : bool
}.

Definition relevant_config (config : AppConfig) : result RelevantConfig :=
  u <- subscript "video_url" (video_url config) ;;
  m <- subscript "model_key" (model_key config) ;;
  s <- subscript "site" (site config) ;;
  let n := get_default (stream_name config) "prediction_visual" in
  t <- subscript "notifications" (notifications config) ;;
  d <- subscript "detect_with_server" (detect_with_server config) ;;
  Ok (mkRelevant u m s n t d).

(** [str(relevant_config)]. *)
Definition str_relevant (r : RelevantConfig) : string :=
  "{'video_url': " ++ PyRepr.repr_str (rc_video_url r)
  ++ ", 'model_key': " ++ PyRepr.repr_str (rc_model_key r)
  ++ ", 'site': " ++ PyRepr.repr_opt_str (rc_site r)
  ++ ", 'stream_name': " ++ PyRepr.repr_str (rc_stream_name r)
  ++ ", 'notifications': " ++ PyRepr.repr_opt_dict (rc_notifications r)
  ++ ", 'detect_with_server': " ++ PyRepr.repr_bool (rc_detect_with_server r)
  ++ "}".

Definition compute_config_hash (config : AppConfig) : result string :=
  r <- relevant_config config ;;
  Ok (str_relevant r).

(** The stream label a record stands for:
    [config.get('stream_name', 'prediction_visual')]. *)
Definition stream_label (config : AppConfig) : string :=
  get_default (stream_name config) "prediction_visual".

(** Two records agree on the six fields the fingerprint is built from. *)
Definition same_relevant (c1 c2 : AppConfig) : Prop :=
  video_url c1 = video_url c2
  /\ model_key c1 = model_key c2
  /\ site c1 = site c2
  /\ stream_label c1 = stream_label c2
  /\ notifications c1 = notifications c2
  /\ detect_with_server c1 = detect_with_server c2.

(** The record with its [expire_date] key replaced. *)
Definition with_expire_date (e : option (option string)) (c : AppConfig) : AppConfig :=
  mkAppConfig (video_url c) (model_key c) (site c) (stream_name c)
    (notifications c) (detect_with_server c) e (line_token c) (language c).

(** ** Dictionaries in insertion order *)

Module PyDict.
Section Dict.
Context {V : Type}.

Definition t : Type := list (string * V).

(** [d.get(k)]. *)
Fixpoint get (k : string) (d : t) : option V :=
  match d with
  | [] => None
  | (k', v) :: d' => if (k =? k')%string then Some v else get k d'
  end.

(** [k in d]. *)
Definition contains (k : string) (d : t) : bool :=
  match get k d with
  | Some _ => true
  | None => false
  end.

(** [d[k] = v]: a key already there keeps its place, a new key goes
    last. *)
Fixpoint set (k : string) (v : V) (d : t) : t :=
  match d with
  | [] => [(k, v)]
  | (k', v') :: d' =>
      if (k =? k')%string then (k', v) :: d' else (k', v') :: set k v d'
  end.

(** What is left after [del d[k]]. *)
Fixpoint remove (k : string) (d : t) : t :=
  match d with
  | [] => []
  | (k', v') :: d' =>
      if (k =? k')%string then d' else (k', v') :: remove k d'
  end.

(** [list(d.keys())]. *)
Definition keys (d : t) : list string := map fst d.
End Dict.
Arguments t : clear implicits.
End PyDict.

(** [x in s] for a set of strings. *)
Definition mem (x : string) (s : list string) : bool :=
  existsb (String.eqb x) s.

(** ** The application state and its effects *)

(** An entry of [running_processes]: the dictionary with the keys
    [process] and [config]. A process handle is the number of the
    process in creation order. *)
Record Worker : Type := mkWorker {
  process : nat;
  config : AppConfig
}.

Record MainApp : Type := mkMainApp {
  running_processes : PyDict.t Worker;
  current_config_hashes : PyDict.t string;
  processes_created : nat
}.

Inductive effect : Type :=
| LogInfo (msg : string)
| Terminate (p : nat)                  (* [stop_process]: terminate and join *)
| Spawn (p : nat) (config : AppConfig) (* [start_process] *)
| RedisDelete (key : string).

(** What running a piece of [MainApp] code leaves behind: the value or
    the exception, the state at that point, and the effects issued. *)
Record outcome (A : Type) : Type := mkOutcome {
  value : result A;
  final : MainApp;
  trace : list effect
}.
Arguments mkOutcome {A} value final trace.
Arguments value {A} o.
Arguments final {A} o.
Arguments trace {A} o.

Definition M (A : Type) : Type := MainApp -> outcome A.

Definition ret {A} (a : A) : M A :=
  fun app => mkOutcome (Ok a) app [].

Definition bind {A B} (m : M A) (k : A -> M B) : M B :=
  fun app =>
    let o := m app in
    match value o with
    | Ok a =>
        let o' := k a (final o) in
        mkOutcome (value o') (final o') (trace o ++ trace o')
    | Raise e => mkOutcome (Raise e) (final o) (trace o)
    end.

Notation "'let*' x ':=' m 'in' k" := (bind m (fun x => k))
  (at level 10, x name, m at level 100, k at level 200).
Notation "m ';;;' k" := (bind m (fun _ => k))
  (at level 100, k at level 200, right associativity).

Definition lift {A} (r : result A) : M A :=
  fun app => mkOutcome r app [].

Definition emit (e : effect) : M unit :=
  fun app => mkOutcome (Ok tt) app [e].

Definition gets {A} (f : MainApp -> A) : M A :=
  fun app => mkOutcome (Ok (f app)) app [].

Definition modify (f : MainApp -> MainApp) : M unit :=
  fun app => mkOutcome (Ok tt) (f app) [].

(** [for x in l: body(x)]. *)
Fixpoint for_each {X} (l : list X) (body : X -> M unit) : M unit :=
  match l with
  | [] => ret tt
  | x :: l' => body x ;;; for_each l' body
  end.

Definition log_info (msg : string) : M unit := emit (LogInfo msg).

(** [self.running_processes[video_url]]. *)
Definition running_process (url : string) : M Worker :=
  let* d := gets running_processes in
  lift (subscript url (PyDict.get url d)).

Definition set_running (url : string) (w : Worker) : M unit :=
  modify (fun app =>
    mkMainApp (PyDict.set url w (running_processes app))
      (current_config_hashes app) (processes_created app)).

(** [del self.running_processes[video_url]]. *)
Definition del_running (url : string) : M unit :=
  let* d := gets running_processes in
  let* _ := lift (subscript url (PyDict.get url d)) in
  modify (fun app =>
    mkMainApp (PyDict.remove url (running_processes app))
      (current_config_hashes app) (processes_created app)).

Definition set_hash (url h : string) : M unit :=
  modify (fun app =>
    mkMainApp (running_processes app)
      (PyDict.set url h (current_config_hashes app)) (processes_created app)).

(** [del self.current_config_hashes[video_url]]. *)
Definition del_hash (url : string) : M unit :=
  let* d := gets current_config_hashes in
  let* _ := lift (subscript url (PyDict.get url d)) in
  modify (fun app =>
    mkMainApp (running_processes app)
      (PyDict.remove url (current_config_hashes app)) (processes_created app)).

(** [start_process]: a new process runs [process_streams(config)]. *)
Definition start_process (c : AppConfig) : M nat :=
  let* p := gets processes_created in
  modify (fun app =>
    mkMainApp (running_processes app) (current_config_hashes app) (S p)) ;;;
  emit (Spawn p c) ;;;
  ret p.

(** [stop_process]. *)
Definition stop_process (p : nat) : M unit := emit (Terminate p).

(** ** The reconciliation pass *)

(** The key of the buffer slot, [f"{site}_{stream_name}"]. *)
Definition site_stream (s : option string) (label : string) : string :=
  PyRepr.format_opt_str s ++ "_" ++ label.

(** A dictionary with no key at all is false in a condition. *)
Definition is_empty_config (c : AppConfig) : bool :=
  match video_url c, model_key c, site c, stream_name c, notifications c,
        detect_with_server c, expire_date c, line_token c, language c with
  | None, None, None, None, None, None, None, None, None => true
  | _, _, _, _, _, _, _, _, _ => false
  end.

(** [{config['video_url']: config for config in configurations}]. *)
Fixpoint current_configs_from (configurations : list AppConfig)
    (acc : PyDict.t AppConfig) : result (PyDict.t AppConfig) :=
  match configurations with
  | [] => Ok acc
  | c :: rest =>
      u <- subscript "video_url" (video_url c) ;;
      current_configs_from rest (PyDict.set u c acc)
  end.

(** The set of the keys [f"{config['site']}_{stream_name}"] over all
    the records of the file. *)
Fixpoint current_keys_from (configurations : list AppConfig) : result (list string) :=
  match configurations with
  | [] => Ok []
  | c :: rest =>
      s <- subscript "site" (site c) ;;
      ks <- current_keys_from rest ;;
      Ok (site_stream s (stream_label c) :: ks)
  end.

Section Reconciler.

(** [Utils.is_expired], applied to [config.get('expire_date')]; the
    clock does not move during a pass. *)
Variable is_expired : option string -> bool.

Definition delete_old_key (key_to_delete : string) (current_keys : list string) : M unit :=
  if negb (mem key_to_delete current_keys) then
    emit (RedisDelete key_to_delete) ;;;
    log_info ("Deleted Redis key: " ++ key_to_delete)
  else ret tt.

(** [not config or Utils.is_expired(config.get('expire_date'))]. *)
Definition removed_or_expired (c : option AppConfig) : bool :=
  match c with
  | None => true
  | Some c => is_empty_config c || is_expired (get_none (expire_date c))
  end.

(** The body of the first loop, for one running URL. *)
Definition stop_removed_or_updated (current_configs : PyDict.t AppConfig)
    (current_keys : list string) (url : string) : M unit :=
  let* config_data := running_process url in
  let c := PyDict.get url current_configs in
  let* s := lift (subscript "site" (site (config config_data))) in
  let key_to_delete := site_stream s (stream_label (config config_data)) in
  if removed_or_expired c then
    log_info ("Stop workflow: " ++ url) ;;;
    stop_process (process config_data) ;;;
    del_running url ;;;
    del_hash url ;;;
    delete_old_key key_to_delete current_keys
  else
    match c with
    | None => ret tt
    | Some c =>
        let* h := lift (compute_config_hash c) in
        let* recorded := gets (fun app => PyDict.get url (current_config_hashes app)) in
        if match recorded with
           | Some h' => negb (h =? h')%string
           | None => true
           end
        then
          log_info ("Config changed for " ++ url ++ ". Restarting workflow.") ;;;
          stop_process (process config_data) ;;;
          delete_old_key key_to_delete current_keys ;;;
          let* p := start_process c in
          set_running url (mkWorker p c) ;;;
          let* h2 := lift (compute_config_hash c) in
          set_hash url h2
        else ret tt
    end.

(** The body of the second loop, for one item of [current_configs]. *)
Definition start_new (item : string * AppConfig) : M unit :=
  let (url, c) := item in
  if is_expired (get_none (expire_date c)) then
    log_info ("Skip expired configuration: " ++ url)
  else
    let* d := gets running_processes in
    if negb (PyDict.contains url d) then
      log_info ("Launch new workflow: " ++ url) ;;;
      let* p := start_process c in
      set_running url (mkWorker p c) ;;;
      let* h := lift (compute_config_hash c) in
      set_hash url h
    else ret tt.

(** [reload_configurations], given the list the YAML file holds. *)
Definition reload_configurations (configurations : list AppConfig) : M unit :=
  let* current_configs := lift (current_configs_from configurations []) in
  let* current_keys := lift (current_keys_from configurations) in
  let* urls := gets (fun app => PyDict.keys (running_processes app)) in
  for_each urls (stop_removed_or_updated current_configs current_keys) ;;;
  for_each current_configs start_new.

End Reconciler.

(** The state of a new [MainApp]. *)
Definition initial_app : MainApp := mkMainApp [] [] 0.

(** The effects that start or stop a worker. *)
Definition is_lifecycle (e : effect) : bool :=
  match e with
  | Terminate _ | Spawn _ _ => true
  | _ => false
  end.

Definition lifecycle (t : list effect) : list effect := filter is_lifecycle t.

(** Sample records. *)
Module Sample.
Definition cam1 : AppConfig :=
  mkAppConfig (Some "rtsp://cam/1") (Some "yolo11n") (Some (Some "siteA"))
    None (Some (Some [("tok", "en")])) (Some false) None None None.
Definition cam2 : AppConfig :=
  mkAppConfig (Some "rtsp://cam/2") (Some "yolo11n") (Some (Some "siteA"))
    (Some "entrance") (Some None) (Some true) None None None.
(** [cam2] past its date. *)
Definition cam2_old : AppConfig :=
  with_expire_date (Some (Some "2020-01-01T00:00:00")) cam2.
(** A record with no [site] key. *)
Definition no_site : AppConfig :=
  mkAppConfig (Some "rtsp://cam/3") (Some "yolo11n") None
    None (Some None) (Some false) None None None.
(** A record with no [model_key] key. *)
Definition no_model : AppConfig :=
  mkAppConfig (Some "rtsp://cam/4") None (Some (Some "siteB"))
    None (Some None) (Some false) None None None.
(** An [is_expired] for a clock that reads some day in 2024. *)
Definition expired_2024 (e : option string) : bool :=
  match e with
  | Some d => (d =? "2020-01-01T00:00:00")%string
  | None => false
  end.
End Sample.

(** The effects of [delete_old_key]. *)
Definition deletion (current_keys : list string) (key_to_delete : string) : list effect :=
  if mem key_to_delete current_keys then []
  else [RedisDelete key_to_delete; LogInfo ("Deleted Redis key: " ++ key_to_delete)].

(** The state with the entries of [url] dropped, or set. *)
Definition drop_running (url : string) (app : MainApp) : MainApp :=
  mkMainApp (PyDict.remove url (running_processes app))
    (current_config_hashes app) (processes_created app).

Definition drop_worker (url : string) (app : MainApp) : MainApp :=
  mkMainApp (PyDict.remove url (running_processes app))
    (PyDict.remove url (current_config_hashes app)) (processes_created app).

Definition put_running (url : string) (c : AppConfig) (app : MainApp) : MainApp :=
  mkMainApp
    (PyDict.set url (mkWorker (processes_created app) c) (running_processes app))
    (current_config_hashes app) (S (processes_created app)).

Definition put_worker (url : string) (c : AppConfig) (h : string) (app : MainApp) : MainApp :=
  mkMainApp
    (PyDict.set url (mkWorker (processes_created app) c) (running_processes app))
    (PyDict.set url h (current_config_hashes app)) (S (processes_created app)).

(** [compute_config_hash(config) != self.current_config_hashes.get(url)]. *)
Definition hash_differs (h : string) (recorded : option string) : bool :=
  match recorded with
  | Some h' => negb (h =? h')%string
  | None => true
  end.


(** The two dictionaries of the state go together: no URL is listed
    twice and every running URL has a recorded fingerprint. *)
Definition well_formed (app : MainApp) : Prop :=
  NoDup (PyDict.keys (running_processes app))
  /\ forall url, In url (PyDict.keys (running_processes app)) ->
                 PyDict.get url (current_config_hashes app) <> None.

Module SampleState.
(** The state once the workers of [cam1] and [cam2] are running. *)
Definition two_cameras : MainApp :=
  Eval vm_compute in
    final (reload_configurations Sample.expired_2024
             [Sample.cam1; Sample.cam2] initial_app).
End SampleState.

(** [d2] is [d1] with the item [(u, r)] put in at some place. *)
Definition inserted {V} (u : string) (r : V) (d1 d2 : PyDict.t V) : Prop :=
  exists X Y, d1 = (X ++ Y)%list /\ d2 = (X ++ (u, r) :: Y)%list.

(** Two outcomes that leave the same actual state: the same value or
    exception, the same state, and the same starts and stops in the
    same order. *)
Definition same_actual {A} (o1 o2 : outcome A) : Prop :=
  value o1 = value o2
  /\ final o1 = final o2
  /\ lifecycle (trace o1) = lifecycle (trace o2).

(** ** The stream worker *)

(** [int(x)] of a float: the fraction is dropped, towards zero. *)
Definition int_of_float (x : Q) : Z := Z.quot (Qnum x) (Zpos (Qden x)).

Definition Qltb (x y : Q) : bool := negb (Qle_bool y x).

(** The line feed an f-string writes for a backslash and an n. *)
Definition newline : string := String "010" "".

(** [sub in s]. *)
Definition is_substring (sub s : string) : bool :=
  match index 0 sub s with
  | Some _ => true
  | None => false
  end.

(** Modelled from the spec: [StreamCapture.update_capture_interval]
    (src/stream_capture.py is not among the sources). The spec's
    backpressure paragraph has the capture session take the interval it
    is given, and [test_update_capture_interval] reads back the value
    passed in. *)
Record StreamCapture : Type := mkStreamCapture {
  stream_url : string;
  capture_interval : Z
}.

Definition update_capture_interval (cap : StreamCapture) (new_interval : Z) : StreamCapture :=
  mkStreamCapture (stream_url cap) new_interval.

(** What one iteration of the capture loop is given: the frame's
    timestamp, the hour and the text of [datetime.fromtimestamp] of it,
    the warnings [detect_danger] returns, and the time the iteration
    takes ([end_time - start_time]). *)
Record Frame : Type := mkFrame {
  timestamp : Q;
  current_hour : Z;
  detection_time : string;
  warnings : list string;
  processing_time : Q
}.

Inductive worker_effect : Type :=
| WorkerLog (msg : string)
| SendNotification (message line_token : string)
| AddToStream (key overlay_language : string)  (* [maxlen=10] *)
| ReleaseResources
| WorkerRedisDelete (key : string).

(** The variables the notification loop of one frame updates. *)
Record NotifyState : Type := mkNotifyState {
  last_notification_time : Z;
  last_line_token : option string;
  last_language : option string;
  frame_with_detections : option string  (* the language of the overlay *)
}.

(** [(timestamp - last_notification_time) < 300]. *)
Definition in_cooldown (ts : Q) (last : Z) : bool :=
  Qltb (ts - inject_Z last) (inject_Z 300).

(** [7 <= current_hour < 18]. *)
Definition in_working_hours (h : Z) : bool := ((7 <=? h) && (h <? 18))%Z.

(** The first warning that holds the words controlled area, as a list
    of at most one string. *)
Definition controlled_zone_warning (ws : list string) : list string :=
  match find (is_substring "controlled area") ws with
  | Some w => if (w =? "")%string then [] else [w]
  | None => []
  end.

Definition is_nil {A} (l : list A) : bool :=
  match l with
  | [] => true
  | _ :: _ => false
  end.

(** [f"{stream_name}\n[{detection_time}]\n"]. *)
Definition message_header (stream : string) (f : Frame) : string :=
  stream ++ newline ++ "[" ++ detection_time f ++ "]" ++ newline.

Section Worker.

(** [Translator.translate_warning(warnings, language)]. *)
Variable translate_warning : list string -> string -> list string.
(** The status [LineNotifier.send_notification] returns for a message
    and a token. *)
Variable send_notification : string -> string -> Z.
(** [os.name == 'nt']. *)
Variable is_windows : bool.
(** The interval a new [StreamCapture] starts with. *)
Variable initial_interval : Z.

(** The message of one channel, or [None]. *)
Definition compose_message (stream : string) (f : Frame) (lang : string) : option string :=
  let translated_warnings := translate_warning (warnings f) lang in
  let czw := controlled_zone_warning (warnings f) in
  if negb (is_nil czw) && negb (in_working_hours (current_hour f)) then
    Some (message_header stream f ++ PyRepr.repr_list (translate_warning czw lang))
  else if negb (is_nil translated_warnings) && in_working_hours (current_hour f) then
    Some (message_header stream f ++ PyRepr.join newline translated_warnings)
  else None.

(** The body of [for line_token, language in notifications.items()]. *)
Definition notify_channel (stream : string) (f : Frame) (st : NotifyState)
    (channel : string * string) : NotifyState * list worker_effect :=
  let (line_token, lang) := channel in
  if in_cooldown (timestamp f) (last_notification_time st) then
    (mkNotifyState (last_notification_time st) (Some line_token) (Some lang)
       (frame_with_detections st), [])
  else
    let drawn := mkNotifyState (last_notification_time st) (last_line_token st)
                   (last_language st) (Some lang) in
    let skip := (drawn, [WorkerLog "No warnings or outside notification time."]) in
    match compose_message stream f lang with
    | None => skip
    | Some message =>
        if (message =? "")%string then skip
        else
          let sent_to := WorkerLog ("Notification sent to " ++ line_token
                                    ++ " in " ++ lang ++ ".") in
          if (send_notification message line_token =? 200)%Z then
            (mkNotifyState (int_of_float (timestamp f)) (last_line_token st)
               (last_language st) (Some lang),
             [SendNotification message line_token;
              WorkerLog ("Notification sent successfully: " ++ message);
              sent_to])
          else
            (drawn,
             [SendNotification message line_token;
              WorkerLog ("Failed to send notification: " ++ message);
              sent_to])
    end.

Fixpoint notify_channels (stream : string) (f : Frame) (st : NotifyState)
    (channels : list (string * string)) : NotifyState * list worker_effect :=
  match channels with
  | [] => (st, [])
  | ch :: rest =>
      let (st1, t1) := notify_channel stream f st ch in
      let (st2, t2) := notify_channels stream f st1 rest in
      (st2, (t1 ++ t2)%list)
  end.

(** [x or 'en']. *)
Definition or_en (x : option string) : string :=
  match x with
  | Some s => if (s =? "")%string then "en" else s
  | None => "en"
  end.

(** One iteration of the capture loop. The three log lines that close
    it are left out (one formats a float). *)
Definition process_frame (site : option string) (stream : string)
    (notifications : option (list (string * string))) (f : Frame)
    (last : Z) (cap : StreamCapture) : Z * StreamCapture * list worker_effect :=
  let st0 := mkNotifyState last None None None in
  let (st, t) :=
    match notifications with
    | None | Some [] => (st0, [WorkerLog "No notifications provided."])
    | Some channels => notify_channels stream f st0 channels
    end in
  let overlay :=
    match frame_with_detections st with
    | Some l => l
    | None => or_en (last_language st)
    end in
  let stored :=
    if is_windows then []
    else [AddToStream (site_stream site stream) overlay] in
  let new_interval := (int_of_float (processing_time f) + 5)%Z in
  (last_notification_time st, update_capture_interval cap new_interval,
   (t ++ stored)%list).

Fixpoint capture_loop (site : option string) (stream : string)
    (notifications : option (list (string * string))) (frames : list Frame)
    (last : Z) (cap : StreamCapture) : StreamCapture * list worker_effect :=
  match frames with
  | [] => (cap, [])
  | f :: rest =>
      let '(last1, cap1, t1) := process_frame site stream notifications f last cap in
      let (cap2, t2) := capture_loop site stream notifications rest last1 cap1 in
      (cap2, (t1 ++ t2)%list)
  end.

(** [int(time.time()) - 300]. *)
Definition initial_last_notification_time (now : Q) : Z :=
  (int_of_float now - 300)%Z.

(** [process_single_stream], started at [now], over the frames the
    capture yields before it ends. *)
Definition process_single_stream (now : Q) (url : string) (site : option string)
    (stream : string) (notifications : option (list (string * string)))
    (frames : list Frame) : StreamCapture * list worker_effect :=
  let cap0 := mkStreamCapture url initial_interval in
  let (cap, t) := capture_loop site stream notifications frames
                    (initial_last_notification_time now) cap0 in
  (cap, (t ++ [ReleaseResources])%list).

(** The notification targets [process_streams] passes on: the
    [notifications] mapping, or the old pair of keys as a mapping. *)
Definition normalized_notifications (c : AppConfig) : option (list (string * string)) :=
  match notifications c with
  | Some (Some n) => Some n
  | _ =>
      match line_token c, language c with
      | Some (Some t), Some (Some l) => Some [(t, l)]
      | _, _ => None
      end
  end.

(** [process_streams] when [process_single_stream] returns, that is,
    when the capture stops yielding frames of itself: the stream is
    processed, the resources are released, and the [finally] block
    runs. The runs that end otherwise are [process_streams_ending] and
    [worker_process] below. *)
Definition process_streams (now : Q) (c : AppConfig) (frames : list Frame)
    : list worker_effect :=
  let site_ := get_none (site c) in
  let stream := stream_label c in
  let t := snd (process_single_stream now (get_default (video_url c) "")
                  site_ stream (normalized_notifications c) frames) in
  if is_windows then t
  else
    let key := site_stream site_ stream in
    (t ++ [WorkerRedisDelete key; WorkerLog ("Deleted Redis key: " ++ key)])%list.

(** The [finally] block of [process_streams]. *)
Definition finally_block (c : AppConfig) : list worker_effect :=
  if is_windows then []
  else
    let key := site_stream (get_none (site c)) (stream_label c) in
    [WorkerRedisDelete key; WorkerLog ("Deleted Redis key: " ++ key)].

(** The effects of the capture loop of [process_single_stream] over the
    frames, before the resources are released. *)
Definition frames_trace (now : Q) (c : AppConfig) (frames : list Frame)
    : list worker_effect :=
  snd (capture_loop (get_none (site c)) (stream_label c)
         (normalized_notifications c) frames
         (initial_last_notification_time now)
         (mkStreamCapture (get_default (video_url c) "") initial_interval)).

(** How [process_single_stream] ends: it returns when the capture stops
    yielding, or an exception (of the detector, the notifier, the
    capture) leaves it after some of the effects of its loop, and then
    [release_resources] is not called. *)
Inductive stream_end : Type :=
| CaptureEnds
| ExceptionAfter (effects : nat).

(** What [process_streams] does in its [try] block, for either end of
    [process_single_stream]. *)
Definition try_block (how : stream_end) (now : Q) (c : AppConfig)
    (frames : list Frame) : list worker_effect :=
  match how with
  | CaptureEnds =>
      snd (process_single_stream now (get_default (video_url c) "")
             (get_none (site c)) (stream_label c) (normalized_notifications c)
             frames)
  | ExceptionAfter n => firstn n (frames_trace now c frames)
  end.

(** [process_streams], [try] and [finally], for either end of
    [process_single_stream]. *)
Definition process_streams_ending (how : stream_end) (now : Q) (c : AppConfig)
    (frames : list Frame) : list worker_effect :=
  (try_block how now c frames ++ finally_block c)%list.

(** The process [start_process] starts runs [process_streams]. It ends
    when [process_streams] does, or earlier, when [stop_process] calls
    [Process.terminate]: the process is then ended where it stands,
    after some of its effects, and runs no [finally] block. *)
Definition worker_process (how : stream_end) (terminated_after : option nat)
    (now : Q) (c : AppConfig) (frames : list Frame) : list worker_effect :=
  match terminated_after with
  | None => process_streams_ending how now c frames
  | Some n => firstn n (process_streams_ending how now c frames)
  end.

End Worker.

(** ** Quality selection of the fallback capture *)

Module Quality.
(** Modelled from the spec: [StreamCapture.select_quality_based_on_speed]
    (src/stream_capture.py is not among the sources). The spec's
    section 4.2 gives the ladder best > 1080p > 720p > 480p > 360p >
    240p, the cap by download capacity in Mbps (at least 10: no cap;
    from 5 up to 10: 720p; below 5: 480p) and the choice of the highest
    advertised variant at or below the cap, or none. *)
Definition ladder : list string :=
  ["best"; "1080p"; "720p"; "480p"; "360p"; "240p"].

(** The tiers of [l] from [cap] down. *)
Fixpoint at_or_below (cap : string) (l : list string) : list string :=
  match l with
  | [] => []
  | q :: l' => if (q =? cap)%string then q :: l' else at_or_below cap l'
  end.

Definition cap_of (download : Q) : string :=
  if Qle_bool (inject_Z 10) download then "best"
  else if Qle_bool (inject_Z 5) download then "720p"
  else "480p".

Definition allowed (download : Q) : list string :=
  at_or_below (cap_of download) ladder.

(** The URL of the first of [tiers] that the source advertises. *)
Fixpoint first_available (tiers : list string) (streams : PyDict.t string)
    : option string :=
  match tiers with
  | [] => None
  | q :: rest =>
      match PyDict.get q streams with
      | Some url => Some url
      | None => first_available rest streams
      end
  end.

Definition select_quality_based_on_speed (download : Q)
    (streams : PyDict.t string) : option string :=
  first_available (allowed download) streams.

(** The fallback session: it reads from the selected URL, or cannot
    proceed. *)
Inductive session : Type :=
| Capturing (url : string)
| Fatal.

Definition open_fallback (download : Q) (streams : PyDict.t string) : session :=
  match select_quality_based_on_speed download streams with
  | Some url => Capturing url
  | None => Fatal
  end.
End Quality.

(** The messages a worker tried to send, with their tokens, in order. *)
Fixpoint sends (t : list worker_effect) : list (string * string) :=
match t with
| [] => []
| SendNotification m tok :: t' => (m, tok) :: sends t'
| _ :: t' => sends t'
end.

(** The buffer keys a worker deleted, in order. *)
Fixpoint worker_deletions (t : list worker_effect) : list string :=
match t with
| [] => []
| WorkerRedisDelete k :: t' => k :: worker_deletions t'
| _ :: t' => worker_deletions t'
end.

Module SampleFrames.
Definition intrusion : string :=
  "Warning: 2 people have entered the controlled area!".
(** A frame at half past a second, at night, with an intrusion. *)
Definition night : Frame :=
  mkFrame (2001 # 2) 20 "1970-01-01 20:16:40.500000" [intrusion] (27 # 10).
(** A translator that leaves English as it is. *)
Definition english (ws : list string) (lang : string) : list string := ws.
(** A transport that always answers 200. *)
Definition always_ok (message line_token : string) : Z := 200%Z.
End SampleFrames.

Module SampleStreams.
(** The variants of the tests of the quality selection. *)
Definition high : PyDict.t string :=
  [("best", "http://best.stream"); ("1080p", "http://1080p.stream");
   ("720p", "http://720p.stream"); ("480p", "http://480p.stream")].
Definition medium : PyDict.t string :=
  [("720p", "http://720p.stream"); ("480p", "http://480p.stream");
   ("360p", "http://360p.stream")].
Definition low : PyDict.t string :=
  [("480p", "http://480p.stream"); ("360p", "http://360p.stream");
   ("240p", "http://240p.stream")].
End SampleStreams.

(** ** States that a pass leaves alone *)

(** A trace of log lines only. *)
Definition only_logs (t : list effect) : Prop :=
  forall e, In e t -> exists msg, e = LogInfo msg.

(** The entry of [url], when there is one, answers the file: its stored
    record has a site, the file has a record for the URL that is not
    expired, and the fingerprint recorded is that record's. *)
Definition answers (is_expired : option string -> bool)
    (cc : PyDict.t AppConfig) (app : MainApp) (url : string) : Prop :=
  forall w, PyDict.get url (running_processes app) = Some w ->
    site (config w) <> None
    /\ exists c h,
         PyDict.get url cc = Some c
         /\ is_expired (get_none (expire_date c)) = false
         /\ compute_config_hash c = Ok h
         /\ PyDict.get url (current_config_hashes app) = Some h.

(** The state is what the file asks for: the file can be read, every
    running worker answers the file, and every record of the file that
    is not expired has its worker running. *)
Definition settled (is_expired : option string -> bool)
    (configurations : list AppConfig) (app : MainApp) : Prop :=
  exists cc ks,
    current_configs_from configurations [] = Ok cc
    /\ current_keys_from configurations = Ok ks
    /\ (forall url, answers is_expired cc app url)
    /\ (forall url c, In (url, c) cc ->
          is_expired (get_none (expire_date c)) = false ->
          PyDict.contains url (running_processes app) = true).

(** The record with the expiry date [new_date] gives it. *)
Definition redated (new_date : AppConfig -> option (option string))
    (c : AppConfig) : AppConfig :=
  with_expire_date (new_date c) c.

(** The dictionary with [f] applied to every value. *)
Definition map_values {V W} (f : V -> W) (d : PyDict.t V) : PyDict.t W :=
  map (fun kv => (fst kv, f (snd kv))) d.

Module SampleLegacy.
(** A record in the old format: a token and a language, and no
    [notifications] key. *)
Definition old_format : AppConfig :=
  mkAppConfig (Some "rtsp://cam/5") (Some "yolo11n") (Some (Some "siteC"))
    None None (Some false) None (Some (Some "tok")) (Some (Some "en")).
End SampleLegacy.

(** The keys under which a worker stored frames, in order. *)
Fixpoint stored_keys (t : list worker_effect) : list string :=
match t with
| [] => []
| AddToStream k _ :: t' => k :: stored_keys t'
| _ :: t' => stored_keys t'
end.

(** The transport accepted the message. *)
Definition accepted (send_notification : string -> string -> Z)
    (p : string * string) : Prop :=
  send_notification (fst p) (snd p) = 200%Z.

(** ** The tracking generator of [live_stream_tracking.py] *)

Module Tracking.
Section Generator.
Variables Image Ids Data : Type.

(** What one turn of the loop of [generate_detections] meets: whether
    the capture is open, the frame of a successful read, the boxes of
    the tracker's first result ([None] when it has none), the clock, and
    the code [cv2.waitKey(1)] returns. *)
Record Turn : Type := mkTurn {
  is_opened : bool;
  read : option Image;
  boxes : option (Ids * Data);
  clock : Q;
  wait_key : Z
}.

(** The first two components of a yielded tuple: the identifiers and
    the data of the boxes, or two empty lists. *)
Inductive detections : Type :=
| NoDetection
| Detections (ids : Ids) (data : Data).

Definition yielded : Type := (detections * Image * Q)%type.

(** [cv2.waitKey(1) & 0xFF == ord('q')]. *)
Definition pressed_q (k : Z) : bool := (Z.land k 255 =? 113)%Z.

Definition detections_of (t : Turn) : detections :=
  match boxes t with
  | Some (i, d) => Detections i d
  | None => NoDetection
  end.

(** The tuples [generate_detections] yields over the turns given. *)
Fixpoint generate_detections (turns : list Turn) : list yielded :=
  match turns with
  | [] => []
  | t :: rest =>
      if negb (is_opened t) then []
      else
        match read t with
        | None => []
        | Some frame =>
            (detections_of t, frame, clock t)
            :: (if pressed_q (wait_key t) then [] else generate_detections rest)
        end
  end.

End Generator.
Arguments mkTurn {Image Ids Data}.
Arguments is_opened {Image Ids Data}.
Arguments read {Image Ids Data}.
Arguments boxes {Image Ids Data}.
Arguments clock {Image Ids Data}.
Arguments wait_key {Image Ids Data}.
Arguments NoDetection {Ids Data}.
Arguments Detections {Ids Data}.
Arguments detections_of {Image Ids Data}.
Arguments generate_detections {Image Ids Data}.
End Tracking.

(** ** The label files of [visualise_bounding_boxes.py] *)

Module BoundingBox.

(** The ways unpacking [map(float, line.split())] into five names
    raises [ValueError]. *)
Inductive value_error : Type :=
| NotEnoughValues (got : nat)
| TooManyValues
| CouldNotConvert (token : string).

(** The corners [cv2.rectangle] is given. *)
Record rectangle : Type := mkRectangle {
  x1 : Z;
  y1 : Z;
  x2 : Z;
  y2 : Z
}.

(** [str.isspace] on the code points below 256. *)
Definition is_space (c : ascii) : bool :=
  let n := N_of_ascii c in
  (((9 <=? n) && (n <=? 13)) || ((28 <=? n) && (n <=? 32))
   || (n =? 133) || (n =? 160))%N.

(** [line.split()]: the runs of characters between white space; [cur]
    is the run being read. *)
Fixpoint split_from (cur : string) (s : string) : list string :=
  match s with
  | EmptyString => if (cur =? "")%string then [] else [cur]
  | String c s' =>
      if is_space c then
        if (cur =? "")%string then split_from "" s'
        else cur :: split_from "" s'
      else split_from (cur ++ String c "") s'
  end.

Definition split (line : string) : list string := split_from "" line.

(** What ends the loop of [draw_bounding_boxes]: the [ValueError] of
    the unpacking, the [ValueError] of [int] on a NaN, the
    [OverflowError] of [int] on an infinity, or the exception of
    [cv2.rectangle] on corners it does not take. *)
Inductive draw_error : Type :=
| Unpacking (e : value_error)
| NaNToInteger
| InfinityToInteger
| RectangleRefused (r : rectangle).

(** [float(n)] for an [int] of the size of an image side (below 2^63 in
    absolute value); [x * width] converts [width] so. *)
Definition float_of_int (n : Z) : PrimFloat.float :=
  if (n <? 0)%Z then PrimFloat.opp (PrimFloat.of_uint63 (Uint63.of_Z (- n)))
  else PrimFloat.of_uint63 (Uint63.of_Z n).

(** [int(x)] of a float: the integer part of a finite value, towards
    zero; it raises on NaN and on the infinities. *)
Definition int_of_float64 (x : PrimFloat.float) : draw_error + Z :=
  match FloatOps.Prim2SF x with
  | SpecFloat.S754_zero _ => inr 0%Z
  | SpecFloat.S754_infinity _ => inl InfinityToInteger
  | SpecFloat.S754_nan => inl NaNToInteger
  | SpecFloat.S754_finite s m e =>
      let v := if (0 <=? e)%Z then (Z.pos m * 2 ^ e)%Z
               else Z.quot (Z.pos m) (2 ^ (- e)) in
      inr (if s then (- v)%Z else v)
  end.

Section Draw.
(** [float(token)], [None] when it raises. *)
Variable float : string -> option PrimFloat.float.
(** Whether [cv2.rectangle] takes the corners and returns. *)
Variable rectangle_drawn : rectangle -> bool.

(** The next value of the iterator [map(float, tokens)], asked for after
    [got] values, and the tokens left. *)
Definition next_float (got : nat) (tokens : list string)
    : value_error + (PrimFloat.float * list string) :=
  match tokens with
  | [] => inl (NotEnoughValues got)
  | tok :: rest =>
      match float tok with
      | None => inl (CouldNotConvert tok)
      | Some x => inr (x, rest)
      end
  end.

(** [class_id, x_centre, y_centre, bbox_width, bbox_height = map(float, tokens)]:
    five values are asked for, then one more, which must not come. *)
Definition unpack5 (tokens : list string)
    : value_error + (PrimFloat.float * PrimFloat.float * PrimFloat.float
                     * PrimFloat.float * PrimFloat.float) :=
  match next_float 0 tokens with
  | inl e => inl e
  | inr (a, r1) =>
  match next_float 1 r1 with
  | inl e => inl e
  | inr (b, r2) =>
  match next_float 2 r2 with
  | inl e => inl e
  | inr (c, r3) =>
  match next_float 3 r3 with
  | inl e => inl e
  | inr (d, r4) =>
  match next_float 4 r4 with
  | inl e => inl e
  | inr (e, r5) =>
  match r5 with
  | [] => inr (a, b, c, d, e)
  | tok :: _ =>
      match float tok with
      | None => inl (CouldNotConvert tok)
      | Some _ => inl TooManyValues
      end
  end end end end end end.

(** The corners of one line, for an image [width] by [height]: the
    relative values are scaled in floating point, and the four calls of
    [int] run in the order x1, y1, x2, y2. *)
Definition box_of (width height : Z)
    (v : PrimFloat.float * PrimFloat.float * PrimFloat.float
         * PrimFloat.float * PrimFloat.float) : draw_error + rectangle :=
  let '(class_id, x_centre, y_centre, bbox_width, bbox_height) := v in
  let x_centre := PrimFloat.mul x_centre (float_of_int width) in
  let bbox_width := PrimFloat.mul bbox_width (float_of_int width) in
  let y_centre := PrimFloat.mul y_centre (float_of_int height) in
  let bbox_height := PrimFloat.mul bbox_height (float_of_int height) in
  let two := float_of_int 2 in
  match int_of_float64 (PrimFloat.sub x_centre (PrimFloat.div bbox_width two)) with
  | inl e => inl e
  | inr x1 =>
  match int_of_float64 (PrimFloat.sub y_centre (PrimFloat.div bbox_height two)) with
  | inl e => inl e
  | inr y1 =>
  match int_of_float64 (PrimFloat.add x_centre (PrimFloat.div bbox_width two)) with
  | inl e => inl e
  | inr x2 =>
  match int_of_float64 (PrimFloat.add y_centre (PrimFloat.div bbox_height two)) with
  | inl e => inl e
  | inr y2 => inr (mkRectangle x1 y1 x2 y2)
  end end end end.

(** The body of the loop for one line: the rectangle drawn, or the
    exception raised. *)
Definition draw_line (width height : Z) (line : string) : draw_error + rectangle :=
  match unpack5 (split line) with
  | inl e => inl (Unpacking e)
  | inr v =>
      match box_of width height v with
      | inl e => inl e
      | inr r => if rectangle_drawn r then inr r else inl (RectangleRefused r)
      end
  end.

(** [draw_bounding_boxes]: the rectangles drawn, in order, and the
    exception that ended the loop, if any. *)
Fixpoint draw_bounding_boxes (width height : Z) (lines : list string)
    : list rectangle * option draw_error :=
  match lines with
  | [] => ([], None)
  | line :: rest =>
      match draw_line width height line with
      | inl e => ([], Some e)
      | inr r =>
          let (rs, e) := draw_bounding_boxes width height rest in
          (r :: rs, e)
      end
  end.

End Draw.
End BoundingBox.

(** The tuple a turn yields, when the capture is open and the read
    succeeds. *)
Definition yield_of {Image Ids Data} (t : Tracking.Turn Image Ids Data)
    : option (Tracking.yielded Image Ids Data) :=
  if Tracking.is_opened t then
    match Tracking.read t with
    | Some frame => Some (Tracking.detections_of t, frame, Tracking.clock t)
    | None => None
    end
  else None.

Module SampleLabels.
(** The float nearest to [a / b]. *)
Definition ratio (a b : Z) : PrimFloat.float :=
  PrimFloat.div (BoundingBox.float_of_int a) (BoundingBox.float_of_int b).
(** A [float] that reads a few numerals. *)
Definition float (tok : string) : option PrimFloat.float :=
  if (tok =? "0")%string then Some (ratio 0 1)
  else if (tok =? "0.5")%string then Some (ratio 1 2)
  else if (tok =? "0.25")%string then Some (ratio 1 4)
  else if (tok =? "0.57")%string then Some (ratio 57 100)
  else if (tok =? "nan")%string then Some (ratio 0 0)
  else if (tok =? "inf")%string then Some (ratio 1 0)
  else None.
(** A [cv2.rectangle] that takes corners that fit 32 bits. *)
Definition rectangle_drawn (r : BoundingBox.rectangle) : bool :=
  forallb (fun z => (Z.abs z <? 2 ^ 31)%Z)
    [BoundingBox.x1 r; BoundingBox.y1 r; BoundingBox.x2 r; BoundingBox.y2 r].
(** Label lines, a blank line, and a line with a NaN. *)
Definition centred : string := "0 0.5 0.5 0.25 0.5" ++ String "010" "".
Definition off_centre : string := "0 0.57 0.5 0 0" ++ String "010" "".
Definition blank : string := String "010" "".
Definition not_a_number : string := "0 nan 0.5 0.25 0.5" ++ String "010" "".
End SampleLabels.

(** The line holds white space only. *)
Fixpoint all_space (line : string) : bool :=
match line with
| EmptyString => true
| String c s => BoundingBox.is_space c && all_space s
end.

(* ================================================================= *)
(** * Part II: properties *)
(* ================================================================= *)

Example hash_example :
  compute_config_hash
    (mkAppConfig (Some "rtsp://a") (Some "yolo11n") (Some (Some "siteA"))
       None (Some (Some [("tok", "en")])) (Some false) None None None)
  = Ok "{'video_url': 'rtsp://a', 'model_key': 'yolo11n', 'site': 'siteA', 'stream_name': 'prediction_visual', 'notifications': {'tok': 'en'}, 'detect_with_server': False}".
Proof. reflexivity. Qed.

Example repr_str_quotes :
  PyRepr.repr_str "it's" = String PyRepr.dquote ("it's" ++ String PyRepr.dquote "")
  /\ PyRepr.repr_str (String "010" "a\b") = "'\na\\b'"
  /\ PyRepr.repr_str (String "127" (String "233" "")) = String "'" ("\x7f" ++ String "233" "'").
Proof. repeat split; reflexivity. Qed.

(** ** Strings *)




(** ** Reading a literal back *)

Section ReadBack.
Import PyRepr.

Variable q : ascii.
Hypothesis q_quote : q = squote \/ q = dquote.



End ReadBack.













(** ** The fingerprint *)



Lemma same_relevant_hash (c1 c2 : AppConfig) :
  same_relevant c1 c2 -> compute_config_hash c1 = compute_config_hash c2.
Proof.
  intros (Hu & Hm & Hs & Hn & Ht & Hd).
  unfold compute_config_hash, relevant_config.
  unfold stream_label in Hn.
  now rewrite Hu, Hm, Hs, Hn, Ht, Hd.
Qed.

(** The fingerprint ignores the expiry date. *)
Lemma compute_config_hash_expire (e : option (option string)) (c : AppConfig) :
  compute_config_hash (with_expire_date e c) = compute_config_hash c.
Proof. apply same_relevant_hash; repeat split. Qed.



(** ** Records that lack a required key *)

Lemma current_configs_from_missing (configurations : list AppConfig) :
  (exists c, In c configurations /\ video_url c = None) ->
  forall acc, current_configs_from configurations acc = Raise (KeyError "video_url").
Proof.
  induction configurations as [|c rest IH]; intros (c0 & Hin & Hc) acc.
  - destruct Hin.
  - simpl. destruct (video_url c) as [u|] eqn:E; simpl; [|reflexivity].
    apply IH. destruct Hin as [-> | Hin]; [congruence | eauto].
Qed.

Lemma current_keys_from_missing (configurations : list AppConfig) :
  (exists c, In c configurations /\ site c = None) ->
  current_keys_from configurations = Raise (KeyError "site").
Proof.
  induction configurations as [|c rest IH]; intros (c0 & Hin & Hc).
  - destruct Hin.
  - simpl. destruct (site c) as [s|] eqn:E; simpl; [|reflexivity].
    rewrite IH; [reflexivity|].
    destruct Hin as [-> | Hin]; [congruence | eauto].
Qed.

Lemma current_configs_from_result (configurations : list AppConfig)
    (acc : PyDict.t AppConfig) :
  (exists d, current_configs_from configurations acc = Ok d)
  \/ current_configs_from configurations acc = Raise (KeyError "video_url").
Proof.
  revert acc; induction configurations as [|c rest IH]; intros acc; simpl.
  - eauto.
  - destruct (video_url c); simpl; auto.
Qed.

(** C4 (amended). A record that lacks the [video_url] key or the [site]
    key is not skipped: the pass raises [KeyError] while it reads the
    file's records, before any worker is stopped or started, so no record
    of the file is reconciled, the actual state is left as it was and no
    effect is issued. *)
Theorem reload_configurations_malformed_aborts
    (is_expired : option string -> bool) (configurations : list AppConfig)
    (app : MainApp) :
  (exists c, In c configurations /\ (video_url c = None \/ site c = None)) ->
  let o := reload_configurations is_expired configurations app in
  (value o = Raise (KeyError "video_url") \/ value o = Raise (KeyError "site"))
  /\ final o = app
  /\ trace o = [].
Proof.
  intros (c & Hin & Hc) o; subst o.
  unfold reload_configurations, bind, lift; simpl.
  destruct (current_configs_from_result configurations []) as [(d & E) | E];
    rewrite E; simpl; [|auto].
  destruct Hc as [Hc | Hc].
  - rewrite current_configs_from_missing in E by eauto. discriminate.
  - rewrite current_keys_from_missing by eauto. simpl. auto.
Qed.

Lemma reload_configurations_malformed_aborts_witness :
  let o := reload_configurations Sample.expired_2024
             [Sample.no_site; Sample.cam1] initial_app in
  (value o = Raise (KeyError "video_url") \/ value o = Raise (KeyError "site"))
  /\ final o = initial_app
  /\ trace o = [].
Proof.
  apply (reload_configurations_malformed_aborts Sample.expired_2024
           [Sample.no_site; Sample.cam1] initial_app).
  exists Sample.no_site. split; [simpl; auto | right; reflexivity].
Defined.

(** C4 (as stated) fails: with a record that has no [site] key ahead of
    a well-formed one, the pass raises instead of skipping the first
    record, and the worker of the second, which a pass over the second
    record alone starts, is not started. *)
Lemma reload_configurations_no_isolation :
  value (reload_configurations Sample.expired_2024
           [Sample.no_site; Sample.cam1] initial_app)
  = Raise (KeyError "site")
  /\ trace (reload_configurations Sample.expired_2024
              [Sample.no_site; Sample.cam1] initial_app) = []
  /\ In (Spawn 0 Sample.cam1)
        (trace (reload_configurations Sample.expired_2024
                  [Sample.cam1] initial_app)).
Proof.
  split; [reflexivity|]. split; [reflexivity|].
  vm_compute. auto.
Qed.

(** A new record with no [model_key] key is not skipped either: its
    worker is started, then the fingerprint raises and the pass ends
    before the next record is reached. *)
Example reload_configurations_no_model_key :
  let o := reload_configurations Sample.expired_2024
             [Sample.no_model; Sample.cam1] initial_app in
  value o = Raise (KeyError "model_key")
  /\ lifecycle (trace o) = [Spawn 0 Sample.no_model]
  /\ PyDict.keys (running_processes (final o)) = ["rtsp://cam/4"]
  /\ current_config_hashes (final o) = [].
Proof. repeat split. Qed.

(** ** Dictionaries *)

Section DictFacts.
Context {V : Type}.
Implicit Types (d : PyDict.t V) (k : string) (v : V).

Lemma get_set_same k v d : PyDict.get k (PyDict.set k v d) = Some v.
Proof.
  induction d as [|[k' v'] d IH]; simpl.
  - now rewrite String.eqb_refl.
  - destruct (k =? k')%string eqn:E; simpl; rewrite E; auto.
Qed.

Lemma get_set_other k k' v d :
  k' <> k -> PyDict.get k' (PyDict.set k v d) = PyDict.get k' d.
Proof.
  intros N. induction d as [|[k0 v0] d IH]; simpl.
  - apply String.eqb_neq in N. now rewrite N.
  - destruct (k =? k0)%string eqn:E; simpl; [|now rewrite IH].
    apply String.eqb_eq in E; subst k0.
    apply String.eqb_neq in N. now rewrite N.
Qed.

Lemma get_remove_other k k' d :
  k' <> k -> PyDict.get k' (PyDict.remove k d) = PyDict.get k' d.
Proof.
  intros N. induction d as [|[k0 v0] d IH]; simpl; [reflexivity|].
  destruct (k =? k0)%string eqn:E; simpl; [|now rewrite IH].
  apply String.eqb_eq in E; subst k0.
  apply String.eqb_neq in N. now rewrite N.
Qed.

Lemma get_None_keys k d : PyDict.get k d = None <-> ~ In k (PyDict.keys d).
Proof.
  induction d as [|[k0 v0] d IH]; simpl; [tauto|].
  destruct (k =? k0)%string eqn:E.
  - apply String.eqb_eq in E; subst. split; [discriminate | tauto].
  - apply String.eqb_neq in E. rewrite IH. split; [intros H [?|?]|]; intuition congruence.
Qed.
End DictFacts.


(** ** Running monadic code *)

Lemma for_each_cons {X} (x : X) (l : list X) (body : X -> M unit) (app : MainApp) :
  for_each (x :: l) body app
  = match value (body x app) with
    | Ok _ =>
        let o := for_each l body (final (body x app)) in
        mkOutcome (value o) (final o) (trace (body x app) ++ trace o)
    | Raise e => mkOutcome (Raise e) (final (body x app)) (trace (body x app))
    end.
Proof. reflexivity. Qed.

Ltac simp_run :=
  cbv beta iota zeta delta
    [bind running_process log_info stop_process emit del_running del_hash gets
     lift subscript modify start_process set_running set_hash ret
     value final trace];
  cbn [running_processes current_config_hashes processes_created].

(** ** One iteration of each loop of the pass *)

Section StepFacts.
Variable is_expired : option string -> bool.
Variable cc : PyDict.t AppConfig.
Variable ks : list string.
Variable url : string.

Lemma delete_old_key_run (K : string) (app : MainApp) :
  delete_old_key K ks app = mkOutcome (Ok tt) app (deletion ks K).
Proof.
  unfold delete_old_key, deletion. destruct (mem K ks); reflexivity.
Qed.

(** The first loop's body, case by case. *)
Lemma stop_removed_or_updated_run (app : MainApp) :
  stop_removed_or_updated is_expired cc ks url app =
  match PyDict.get url (running_processes app) with
  | None => mkOutcome (Raise (KeyError url)) app []
  | Some w =>
      match site (config w) with
      | None => mkOutcome (Raise (KeyError "site")) app []
      | Some s =>
          let K := site_stream s (stream_label (config w)) in
          if removed_or_expired is_expired (PyDict.get url cc) then
            match PyDict.get url (current_config_hashes app) with
            | None =>
                mkOutcome (Raise (KeyError url)) (drop_running url app)
                  [LogInfo ("Stop workflow: " ++ url); Terminate (process w)]
            | Some _ =>
                mkOutcome (Ok tt) (drop_worker url app)
                  ([LogInfo ("Stop workflow: " ++ url); Terminate (process w)]
                     ++ deletion ks K)
            end
          else
            match PyDict.get url cc with
            | None => mkOutcome (Ok tt) app []
            | Some c =>
                match compute_config_hash c with
                | Raise e => mkOutcome (Raise e) app []
                | Ok h =>
                    if hash_differs h (PyDict.get url (current_config_hashes app))
                    then
                      mkOutcome (Ok tt) (put_worker url c h app)
                        ([LogInfo ("Config changed for " ++ url
                                   ++ ". Restarting workflow.");
                          Terminate (process w)]
                           ++ deletion ks K
                           ++ [Spawn (processes_created app) c])
                    else mkOutcome (Ok tt) app []
                end
            end
      end
  end.
Proof.
  unfold stop_removed_or_updated, hash_differs, drop_running, drop_worker, put_worker.
  simp_run.
  destruct (PyDict.get url (running_processes app)) as [w|] eqn:Ew; simp_run;
    [|reflexivity].
  destruct (site (config w)) as [s|] eqn:Es; simp_run; [|reflexivity].
  destruct (removed_or_expired is_expired (PyDict.get url cc)) eqn:Er; simp_run.
  - rewrite ?Ew; simp_run.
    destruct (PyDict.get url (current_config_hashes app)) as [h0|] eqn:Eh; simp_run;
      [|reflexivity].
    rewrite delete_old_key_run. reflexivity.
  - destruct (PyDict.get url cc) as [c|] eqn:Ec; simp_run; [|reflexivity].
    destruct (compute_config_hash c) as [h|e] eqn:Ehash; simp_run; [|reflexivity].
    destruct (match PyDict.get url (current_config_hashes app) with
              | Some h' => negb (h =? h')%string
              | None => true
              end) eqn:Ed; simp_run; [|reflexivity].
    rewrite delete_old_key_run. simp_run.
    rewrite ?app_nil_r. rewrite <- ?app_assoc. reflexivity.
Qed.

(** The second loop's body, case by case. *)
Lemma start_new_run (c : AppConfig) (app : MainApp) :
  start_new is_expired (url, c) app =
  if is_expired (get_none (expire_date c)) then
    mkOutcome (Ok tt) app [LogInfo ("Skip expired configuration: " ++ url)]
  else if PyDict.contains url (running_processes app) then
    mkOutcome (Ok tt) app []
  else
    let t := [LogInfo ("Launch new workflow: " ++ url);
              Spawn (processes_created app) c] in
    match compute_config_hash c with
    | Ok h => mkOutcome (Ok tt) (put_worker url c h app) t
    | Raise e => mkOutcome (Raise e) (put_running url c app) t
    end.
Proof.
  unfold start_new, put_worker, put_running.
  destruct (is_expired (get_none (expire_date c))); [reflexivity|].
  simp_run.
  destruct (PyDict.contains url (running_processes app)); simp_run; [reflexivity|].
  destruct (compute_config_hash c); reflexivity.
Qed.

End StepFacts.

(** ** Stops and deletions in the first loop *)

Lemma deletion_In (ks : list string) (K K' : string) :
  In (RedisDelete K') (deletion ks K) <-> K' = K /\ mem K ks = false.
Proof.
  unfold deletion. destruct (mem K ks); simpl.
  - split; [tauto | intros [_ H]; discriminate].
  - split.
    + intros [H | [H | []]]; [injection H as <-; auto | discriminate].
    + intros [-> _]; auto.
Qed.


Section FirstLoop.
Variable is_expired : option string -> bool.
Variable cc : PyDict.t AppConfig.
Variable ks : list string.

Let step := stop_removed_or_updated is_expired cc ks.



(** The body touches the entries of its own URL only. *)
Lemma step_frame (url url' : string) (app : MainApp) :
  url' <> url ->
  PyDict.get url' (running_processes (final (step url app)))
  = PyDict.get url' (running_processes app)
  /\ PyDict.get url' (current_config_hashes (final (step url app)))
     = PyDict.get url' (current_config_hashes app).
Proof.
  intros N. subst step. rewrite stop_removed_or_updated_run.
  destruct (PyDict.get url (running_processes app)) as [w|]; [|auto].
  destruct (site (config w)) as [s|]; [|auto].
  cbv zeta.
  destruct (removed_or_expired is_expired (PyDict.get url cc)).
  - destruct (PyDict.get url (current_config_hashes app)); simpl;
      rewrite ?get_remove_other by assumption; auto.
  - destruct (PyDict.get url cc) as [c|]; [|auto].
    destruct (compute_config_hash c) as [h|e]; [|auto].
    destruct (hash_differs h _); [|auto].
    simpl. rewrite !get_set_other by assumption; auto.
Qed.



End FirstLoop.

Section SecondLoop.
Variable is_expired : option string -> bool.


End SecondLoop.

(** ** The pass as a whole *)


Lemma reload_configurations_run (is_expired : option string -> bool)
    (configurations : list AppConfig) (app : MainApp) :
  reload_configurations is_expired configurations app =
  match current_configs_from configurations [] with
  | Raise e => mkOutcome (Raise e) app []
  | Ok cc =>
      match current_keys_from configurations with
      | Raise e => mkOutcome (Raise e) app []
      | Ok ks =>
          let o1 := for_each (PyDict.keys (running_processes app))
                      (stop_removed_or_updated is_expired cc ks) app in
          match value o1 with
          | Raise e => mkOutcome (Raise e) (final o1) (trace o1)
          | Ok _ =>
              let o2 := for_each cc (start_new is_expired) (final o1) in
              mkOutcome (value o2) (final o2) (trace o1 ++ trace o2)
          end
      end
  end.
Proof.
  unfold reload_configurations.
  cbv beta iota zeta delta [bind lift gets value final trace].
  destruct (current_configs_from configurations []) as [cc|]; [|reflexivity].
  destruct (current_keys_from configurations) as [ks|]; [|reflexivity].
  destruct (for_each (PyDict.keys (running_processes app)) _ app) as [[[]|e] f t];
    reflexivity.
Qed.






(** ** One more item in a dictionary *)

Section Inserted.
Context {V : Type}.
Implicit Types (d X Y : PyDict.t V) (k u : string) (v r : V).

Lemma get_app k X Y :
  PyDict.get k (X ++ Y)%list
  = match PyDict.get k X with
    | Some v => Some v
    | None => PyDict.get k Y
    end.
Proof.
  induction X as [|[k0 v0] X IH]; simpl; [reflexivity|].
  destruct (k =? k0)%string; auto.
Qed.

Lemma set_app k v X Y :
  PyDict.set k v (X ++ Y)%list
  = (if PyDict.contains k X then PyDict.set k v X ++ Y else X ++ PyDict.set k v Y)%list.
Proof.
  unfold PyDict.contains.
  induction X as [|[k0 v0] X IH]; simpl; [reflexivity|].
  destruct (k =? k0)%string; [reflexivity|].
  rewrite IH. destruct (PyDict.get k X); reflexivity.
Qed.

Lemma keys_set k v d :
  forall k', In k' (PyDict.keys (PyDict.set k v d)) <-> k' = k \/ In k' (PyDict.keys d).
Proof.
  intros k'. induction d as [|[k0 v0] d IH]; simpl.
  - intuition.
  - destruct (k =? k0)%string eqn:E; simpl.
    + apply String.eqb_eq in E; subst. intuition.
    + rewrite IH. intuition.
Qed.

Lemma inserted_set k v u r d1 d2 :
  k <> u -> inserted u r d1 d2 ->
  inserted u r (PyDict.set k v d1) (PyDict.set k v d2).
Proof.
  intros N (X & Y & -> & ->). rewrite !set_app.
  destruct (PyDict.contains k X).
  - exists (PyDict.set k v X), Y. auto.
  - exists X, (PyDict.set k v Y). split; [reflexivity|].
    simpl. apply String.eqb_neq in N. now rewrite N.
Qed.

Lemma inserted_get_other k u r d1 d2 :
  k <> u -> inserted u r d1 d2 -> PyDict.get k d2 = PyDict.get k d1.
Proof.
  intros N (X & Y & -> & ->). rewrite !get_app. simpl.
  apply String.eqb_neq in N. now rewrite N.
Qed.

Lemma inserted_get_same u r d1 d2 :
  ~ In u (PyDict.keys d1) -> inserted u r d1 d2 -> PyDict.get u d2 = Some r.
Proof.
  intros Hn (X & Y & -> & ->). rewrite get_app.
  assert (E : PyDict.get u X = None).
  { apply get_None_keys. intros H. apply Hn.
    unfold PyDict.keys. rewrite map_app, in_app_iff. now left. }
  rewrite E. simpl. now rewrite String.eqb_refl.
Qed.

Lemma set_new k v d : ~ In k (PyDict.keys d) -> PyDict.set k v d = (d ++ [(k, v)])%list.
Proof.
  induction d as [|[k0 v0] d IH]; simpl; intros H; [reflexivity|].
  destruct (k =? k0)%string eqn:E.
  - apply String.eqb_eq in E. subst. tauto.
  - rewrite IH; tauto.
Qed.
End Inserted.

(** ** Reading the file with one more record *)

Lemma current_configs_from_app (A L : list AppConfig) (acc : PyDict.t AppConfig) :
  current_configs_from (A ++ L)%list acc
  = match current_configs_from A acc with
    | Ok d => current_configs_from L d
    | Raise e => Raise e
    end.
Proof.
  revert acc; induction A as [|c A IH]; intros acc; simpl; [reflexivity|].
  destruct (video_url c); simpl; auto.
Qed.

Lemma current_configs_from_keys (A : list AppConfig) (acc d : PyDict.t AppConfig)
    (u : string) :
  current_configs_from A acc = Ok d ->
  In u (PyDict.keys d) ->
  In u (PyDict.keys acc) \/ exists c, In c A /\ video_url c = Some u.
Proof.
  revert acc; induction A as [|c A IH]; intros acc; simpl.
  - intros E; injection E as <-; auto.
  - destruct (video_url c) as [k|] eqn:Ek; simpl; [|discriminate].
    intros E Hin. destruct (IH _ E Hin) as [H | (c' & Hc & Hu)].
    + apply keys_set in H as [-> | H]; [right; exists c; auto | auto].
    + right; exists c'; auto.
Qed.

Lemma current_configs_from_inserted (B : list AppConfig) (u : string) (r : AppConfig) :
  (forall c, In c B -> video_url c <> Some u) ->
  forall acc1 acc2,
    inserted u r acc1 acc2 ->
    match current_configs_from B acc1, current_configs_from B acc2 with
    | Ok d1, Ok d2 => inserted u r d1 d2
    | Raise e1, Raise e2 => e1 = e2
    | _, _ => False
    end.
Proof.
  induction B as [|c B IH]; intros HB acc1 acc2 Hins; simpl.
  - exact Hins.
  - destruct (video_url c) as [k|] eqn:Ek; simpl; [|reflexivity].
    apply IH.
    + intros c' Hc'. apply HB. now right.
    + apply inserted_set; [|assumption].
      intros ->. apply (HB c); [now left | assumption].
Qed.

Lemma current_keys_from_app (A L : list AppConfig) :
  current_keys_from (A ++ L)%list
  = match current_keys_from A, current_keys_from L with
    | Ok ka, Ok kl => Ok (ka ++ kl)%list
    | Ok _, Raise e => Raise e
    | Raise e, _ => Raise e
    end.
Proof.
  induction A as [|c A IH]; simpl.
  - destruct (current_keys_from L); reflexivity.
  - destruct (site c); simpl; [|reflexivity].
    rewrite IH.
    destruct (current_keys_from A); [|reflexivity].
    destruct (current_keys_from L); reflexivity.
Qed.

Lemma current_keys_from_result (A : list AppConfig) :
  (exists ks, current_keys_from A = Ok ks)
  \/ current_keys_from A = Raise (KeyError "site").
Proof.
  induction A as [|c A IH]; simpl; [eauto|].
  destruct (site c); simpl; [|auto].
  destruct IH as [(ks & ->) | ->]; eauto.
Qed.

(** ** Outcomes that leave the same actual state *)

Lemma lifecycle_app (t1 t2 : list effect) :
  lifecycle (t1 ++ t2) = (lifecycle t1 ++ lifecycle t2)%list.
Proof. apply filter_app. Qed.

Lemma lifecycle_deletion (ks : list string) (K : string) :
  lifecycle (deletion ks K) = [].
Proof. unfold deletion. destruct (mem K ks); reflexivity. Qed.

Lemma same_actual_refl {A} (o : outcome A) : same_actual o o.
Proof. repeat split. Qed.

Lemma for_each_same_actual {X} (l : list X) (body1 body2 : X -> M unit) :
  (forall x app, In x l -> same_actual (body1 x app) (body2 x app)) ->
  forall app, same_actual (for_each l body1 app) (for_each l body2 app).
Proof.
  induction l as [|x l IH]; intros Hb app.
  - apply same_actual_refl.
  - rewrite !for_each_cons.
    destruct (Hb x app (or_introl eq_refl)) as (Ev & Ef & Et).
    rewrite <- Ev, <- Ef.
    destruct (value (body1 x app)).
    + destruct (IH (fun y a H => Hb y a (or_intror H)) (final (body1 x app)))
        as (Ev' & Ef' & Et').
      repeat split; cbn [value final trace]; auto.
      rewrite !lifecycle_app. congruence.
    + repeat split; cbn [value final trace]; auto.
Qed.

Lemma for_each_app {X} (l1 l2 : list X) (body : X -> M unit) (app : MainApp) :
  for_each (l1 ++ l2) body app
  = let o1 := for_each l1 body app in
    match value o1 with
    | Ok _ =>
        let o2 := for_each l2 body (final o1) in
        mkOutcome (value o2) (final o2) (trace o1 ++ trace o2)
    | Raise e => mkOutcome (Raise e) (final o1) (trace o1)
    end.
Proof.
  revert app; induction l1 as [|x l1 IH]; intros app; cbv zeta.
  - simpl. destruct (for_each l2 body app); reflexivity.
  - change ((x :: l1) ++ l2)%list with (x :: (l1 ++ l2))%list.
    rewrite !for_each_cons, IH. cbv zeta.
    destruct (value (body x app)); cbn [value final trace]; [|reflexivity].
    destruct (value (for_each l1 body (final (body x app))));
      cbn [value final trace]; [|reflexivity].
    now rewrite app_assoc.
Qed.

Section ExpiredRecord.
Variable is_expired : option string -> bool.

(** The first loop's body does the same to the state under two
    readings of the file that agree on what the URL stands for. *)
Lemma step_same_actual (cc1 cc2 : PyDict.t AppConfig) (ks1 ks2 : list string)
    (url : string) (app : MainApp) :
  removed_or_expired is_expired (PyDict.get url cc1)
  = removed_or_expired is_expired (PyDict.get url cc2) ->
  (removed_or_expired is_expired (PyDict.get url cc1) = false ->
   PyDict.get url cc1 = PyDict.get url cc2) ->
  same_actual (stop_removed_or_updated is_expired cc1 ks1 url app)
              (stop_removed_or_updated is_expired cc2 ks2 url app).
Proof.
  intros E1 E2. rewrite !stop_removed_or_updated_run.
  destruct (PyDict.get url (running_processes app)) as [w|];
    [|apply same_actual_refl].
  destruct (site (config w)) as [s|]; [|apply same_actual_refl].
  cbv zeta. rewrite <- E1.
  destruct (removed_or_expired is_expired (PyDict.get url cc1)).
  - destruct (PyDict.get url (current_config_hashes app));
      [|apply same_actual_refl].
    repeat split; cbn [trace]. now rewrite !lifecycle_app, !lifecycle_deletion.
  - rewrite <- (E2 eq_refl).
    destruct (PyDict.get url cc1) as [c|]; [|apply same_actual_refl].
    destruct (compute_config_hash c) as [h|e]; [|apply same_actual_refl].
    destruct (hash_differs h _); [|apply same_actual_refl].
    repeat split; cbn [trace]. now rewrite !lifecycle_app, !lifecycle_deletion.
Qed.

(** An expired item of the second loop changes nothing. *)
Lemma start_loop_skips_expired (X Y : PyDict.t AppConfig) (u : string)
    (r : AppConfig) (app : MainApp) :
  is_expired (get_none (expire_date r)) = true ->
  same_actual (for_each (X ++ (u, r) :: Y) (start_new is_expired) app)
              (for_each (X ++ Y) (start_new is_expired) app).
Proof.
  intros Hr. rewrite !for_each_app. cbv zeta.
  destruct (value (for_each X (start_new is_expired) app));
    [|apply same_actual_refl].
  rewrite for_each_cons, start_new_run, Hr. cbn [value final trace].
  repeat split; cbn [value final trace].
  rewrite !lifecycle_app. reflexivity.
Qed.

End ExpiredRecord.

Lemma removed_or_expired_expired (is_expired : option string -> bool) (r : AppConfig) :
  is_expired (get_none (expire_date r)) = true ->
  removed_or_expired is_expired (Some r) = true.
Proof. intros H. simpl. rewrite H. apply orb_true_r. Qed.

(** C3. Let the file gain one record [r] whose expiry has passed, with a
    site and with a video URL that no other record of the file has. Then
    a pass over the longer file leaves the state that a pass over the
    shorter file leaves, ends the same way, and starts and stops the
    same workers in the same order: the expired record is skipped and
    no worker is started or stopped because of it. *)
Theorem reload_configurations_expired_record
    (is_expired : option string -> bool) (A B : list AppConfig) (r : AppConfig)
    (u : string) (s : option string) (app : MainApp) :
  video_url r = Some u ->
  site r = Some s ->
  is_expired (get_none (expire_date r)) = true ->
  (forall c, In c (A ++ B)%list -> video_url c <> Some u) ->
  same_actual (reload_configurations is_expired (A ++ r :: B)%list app)
              (reload_configurations is_expired (A ++ B)%list app).
Proof.
  intros Hu Hs Hr Hfresh.
  rewrite !reload_configurations_run.
  (* the dictionary of records *)
  pose proof (current_configs_from_keys (A ++ B) [] ) as Hkeys.
  rewrite !current_configs_from_app in *.
  cbn [current_configs_from]. rewrite Hu. cbn [subscript].
  destruct (current_configs_from A []) as [dA|eA] eqn:EA;
    [|apply same_actual_refl].
  assert (HdA : ~ In u (PyDict.keys dA)).
  { intros Hin. destruct (current_configs_from_keys A [] dA u EA Hin) as [[] | (c & Hc & Hcu)].
    apply (Hfresh c); [apply in_or_app; now left | assumption]. }
  rewrite (set_new u r dA HdA).
  assert (Hins : inserted u r dA (dA ++ [(u, r)])%list).
  { exists dA, []. split; [now rewrite app_nil_r | reflexivity]. }
  pose proof (current_configs_from_inserted B u r
                (fun c H => Hfresh c (in_or_app _ _ _ (or_intror H))) _ _ Hins) as HB.
  destruct (current_configs_from B dA) as [d1|e1] eqn:E1;
    destruct (current_configs_from B (dA ++ [(u, r)])%list) as [d2|e2] eqn:E2;
    try contradiction; [|subst; apply same_actual_refl].
  assert (Hd1 : ~ In u (PyDict.keys d1)).
  { intros Hin. destruct (Hkeys d1 u eq_refl Hin) as [[] | (c & Hc & Hcu)].
    apply (Hfresh c); assumption. }
  (* the set of keys *)
  rewrite !current_keys_from_app. cbn [current_keys_from]. rewrite Hs. cbn [subscript].
  destruct (current_keys_from A) as [kA|] eqn:EkA; [|apply same_actual_refl].
  destruct (current_keys_from_result B) as [(kB & ->) | ->];
    [|apply same_actual_refl].
  (* the two loops *)
  cbv zeta.
  set (urls := PyDict.keys (running_processes app)).
  assert (L1 : same_actual
                 (for_each urls (stop_removed_or_updated is_expired d2
                    (kA ++ site_stream s (stream_label r) :: kB)%list) app)
                 (for_each urls (stop_removed_or_updated is_expired d1
                    (kA ++ kB)%list) app)).
  { apply for_each_same_actual. intros v a _.
    destruct (string_dec v u) as [-> | N].
    - assert (E : PyDict.get u d1 = None) by now apply get_None_keys.
      apply step_same_actual;
        rewrite (inserted_get_same u r d1 d2 Hd1 HB), E,
          removed_or_expired_expired by assumption;
        [reflexivity | discriminate].
    - apply step_same_actual;
        rewrite (inserted_get_other v u r d1 d2 N HB); reflexivity. }
  destruct L1 as (Ev & Ef & Et). rewrite Ev, Ef.
  destruct (value (for_each urls (stop_removed_or_updated is_expired d1
                                    (kA ++ kB)%list) app));
    [|repeat split; cbn [value final trace]; auto].
  destruct HB as (X & Y & -> & ->).
  destruct (start_loop_skips_expired is_expired X Y u r
              (final (for_each urls
                        (stop_removed_or_updated is_expired (X ++ Y)%list
                           (kA ++ kB)%list) app))
              Hr) as (Ev2 & Ef2 & Et2).
  repeat split; cbn [value final trace]; auto.
  rewrite !lifecycle_app. congruence.
Qed.

Lemma reload_configurations_expired_record_witness :
  same_actual
    (reload_configurations Sample.expired_2024
       ([Sample.cam1] ++ Sample.cam2_old :: [])%list SampleState.two_cameras)
    (reload_configurations Sample.expired_2024
       ([Sample.cam1] ++ [])%list SampleState.two_cameras).
Proof.
  apply (reload_configurations_expired_record Sample.expired_2024
           [Sample.cam1] [] Sample.cam2_old "rtsp://cam/2" (Some "siteA")).
  - reflexivity.
  - reflexivity.
  - reflexivity.
  - simpl. intros c [<- | []]. discriminate.
Defined.

(** ** Timestamps *)

Section Timestamps.
Local Open Scope Q_scope.

(** On a float that is not negative, [int] is the floor. *)
Lemma int_of_float_floor (x : Q) : 0 <= x -> int_of_float x = Qfloor x.
Proof.
  destruct x as [n d]. unfold Qle, int_of_float, Qfloor. simpl. intros H.
  apply Z.quot_div_nonneg; lia.
Qed.

(** [int] moves a float by less than one. *)
Lemma int_of_float_bounds (x : Q) :
  inject_Z (int_of_float x) - 1 < x /\ x < inject_Z (int_of_float x) + 1.
Proof.
  destruct x as [n d].
  unfold int_of_float, Qlt, Qminus, Qplus, Qopp, inject_Z. simpl.
  pose proof (Z.quot_rem' n (Zpos d)) as E.
  assert (B : (Z.abs (Z.rem n (Z.pos d)) < Z.abs (Z.pos d))%Z)
    by (apply Z.rem_bound_abs; lia).
  set (q := (n ÷ Z.pos d)%Z) in *. set (r := Z.rem n (Z.pos d)) in *.
  split; lia.
Qed.

Lemma in_cooldown_spec (ts : Q) (last : Z) :
  in_cooldown ts last = true <-> ts - inject_Z last < 300.
Proof.
  unfold in_cooldown, Qltb. rewrite negb_true_iff.
  destruct (Qle_bool (inject_Z 300) (ts - inject_Z last)) eqn:E.
  - apply Qle_bool_iff in E. split; [discriminate|]. intros H.
    change (inject_Z 300) with 300 in E. lra.
  - split; [intros _ | reflexivity].
    apply Qnot_le_lt. intros H. apply Qle_bool_iff in H.
    change (inject_Z 300) with 300 in E. congruence.
Qed.

Lemma in_cooldown_false (ts : Q) (last : Z) :
  in_cooldown ts last = false <-> 300 <= ts - inject_Z last.
Proof.
  rewrite <- not_true_iff_false, in_cooldown_spec. split.
  - apply Qnot_lt_le.
  - apply Qle_not_lt.
Qed.

(** Right after a successful send the cooldown holds. *)
Lemma in_cooldown_after_send (ts : Q) : in_cooldown ts (int_of_float ts) = true.
Proof.
  apply in_cooldown_spec. pose proof (int_of_float_bounds ts). lra.
Qed.

Lemma in_cooldown_start (now ts : Q) :
  0 <= now -> now <= ts ->
  in_cooldown ts (initial_last_notification_time now) = false.
Proof.
  intros H0 H1. apply in_cooldown_false.
  unfold initial_last_notification_time.
  rewrite int_of_float_floor by assumption.
  pose proof (Qfloor_le now).
  unfold Zminus. rewrite inject_Z_plus, inject_Z_opp.
  change (inject_Z 300) with 300. lra.
Qed.

End Timestamps.

(** ** The capture interval *)

Section Backpressure.
Variable translate_warning : list string -> string -> list string.
Variable send_notification : string -> string -> Z.
Variable is_windows : bool.

Lemma process_frame_interval (site : option string) (stream : string)
    (notifications : option (list (string * string))) (f : Frame) (last : Z)
    (cap : StreamCapture) :
  capture_interval
    (snd (fst (process_frame translate_warning send_notification is_windows
                 site stream notifications f last cap)))
  = (int_of_float (processing_time f) + 5)%Z.
Proof.
  unfold process_frame.
  destruct notifications as [[|ch channels]|]; try reflexivity.
  destruct (notify_channels _ _ _ _ _ _); reflexivity.
Qed.

(** C7. After a frame is processed, the capture interval is the floor
    of the processing latency in seconds plus 5 (the latency, a
    duration, is not negative). *)
Theorem capture_interval_after_frame (site : option string) (stream : string)
    (notifications : option (list (string * string))) (f : Frame) (last : Z)
    (cap : StreamCapture) :
  (0 <= processing_time f)%Q ->
  capture_interval
    (snd (fst (process_frame translate_warning send_notification is_windows
                 site stream notifications f last cap)))
  = (Qfloor (processing_time f) + 5)%Z.
Proof.
  intros H. rewrite process_frame_interval. now rewrite int_of_float_floor.
Qed.

End Backpressure.

(** A frame that took 2.7 seconds leaves an interval of 7 seconds. *)
Lemma capture_interval_after_frame_witness :
  capture_interval
    (snd (fst (process_frame (fun ws _ => ws) (fun _ _ => 200%Z) false
                 (Some "siteA") "entrance" None
                 (mkFrame (1700000000 # 1) 12 "2023-11-14 22:13:20" [] (27 # 10))
                 0%Z (mkStreamCapture "rtsp://cam/2" 15))))
  = 7%Z.
Proof.
  exact (capture_interval_after_frame (fun ws _ => ws) (fun _ _ => 200%Z) false
           (Some "siteA") "entrance" None
           (mkFrame (1700000000 # 1) 12 "2023-11-14 22:13:20" [] (27 # 10))
           0%Z (mkStreamCapture "rtsp://cam/2" 15)
           ltac:(unfold Qle; simpl; lia)).
Defined.

(** ** The notification loop *)

Lemma sends_app (t1 t2 : list worker_effect) :
  sends (t1 ++ t2) = (sends t1 ++ sends t2)%list.
Proof.
  induction t1 as [|e t1 IH]; simpl; [reflexivity|].
  destruct e; simpl; now rewrite IH.
Qed.

Lemma worker_deletions_app (t1 t2 : list worker_effect) :
  worker_deletions (t1 ++ t2) = (worker_deletions t1 ++ worker_deletions t2)%list.
Proof.
  induction t1 as [|e t1 IH]; simpl; [reflexivity|].
  destruct e; simpl; now rewrite IH.
Qed.

Section Notifications.
Variable translate_warning : list string -> string -> list string.
Variable send_notification : string -> string -> Z.

Let compose := compose_message translate_warning.
Let channel := notify_channel translate_warning send_notification.
Let channels := notify_channels translate_warning send_notification.

(** A channel checked during the cooldown: nothing is sent. *)
Lemma notify_channel_suppressed (stream : string) (f : Frame) (st : NotifyState)
    (tok lang : string) :
  in_cooldown (timestamp f) (last_notification_time st) = true ->
  channel stream f st (tok, lang)
  = (mkNotifyState (last_notification_time st) (Some tok) (Some lang)
       (frame_with_detections st), []).
Proof. intros H. subst channel. unfold notify_channel. now rewrite H. Qed.

(** A channel with a message, outside the cooldown: one send. *)
Lemma notify_channel_send (stream : string) (f : Frame) (st : NotifyState)
    (tok lang msg : string) :
  in_cooldown (timestamp f) (last_notification_time st) = false ->
  compose stream f lang = Some msg ->
  msg <> "" ->
  sends (snd (channel stream f st (tok, lang))) = [(msg, tok)]
  /\ last_notification_time (fst (channel stream f st (tok, lang)))
     = if (send_notification msg tok =? 200)%Z
       then int_of_float (timestamp f)
       else last_notification_time st.
Proof.
  intros Hc Hm Hne. subst channel compose. unfold notify_channel.
  rewrite Hc, Hm.
  apply String.eqb_neq in Hne. rewrite Hne.
  destruct (send_notification msg tok =? 200)%Z; split; reflexivity.
Qed.

(** A channel with no message, outside the cooldown: it is skipped. *)
Lemma notify_channel_skipped (stream : string) (f : Frame) (st : NotifyState)
    (tok lang : string) :
  in_cooldown (timestamp f) (last_notification_time st) = false ->
  compose stream f lang = None ->
  sends (snd (channel stream f st (tok, lang))) = []
  /\ last_notification_time (fst (channel stream f st (tok, lang)))
     = last_notification_time st.
Proof.
  intros Hc Hm. subst channel compose. unfold notify_channel.
  rewrite Hc, Hm. split; reflexivity.
Qed.

Lemma notify_channels_cons (stream : string) (f : Frame) (st : NotifyState)
    (ch : string * string) (l : list (string * string)) :
  channels stream f st (ch :: l)
  = (fst (channels stream f (fst (channel stream f st ch)) l),
     (snd (channel stream f st ch)
      ++ snd (channels stream f (fst (channel stream f st ch)) l))%list).
Proof.
  subst channels channel. cbn [notify_channels].
  destruct (notify_channel _ _ _ _ _ _) as [st1 t1]. cbn [fst snd].
  destruct (notify_channels _ _ _ _ _ _) as [st2 t2]. reflexivity.
Qed.

(** Once the cooldown holds, it holds for the rest of the pass. *)
Lemma notify_channels_suppressed (stream : string) (f : Frame) (st : NotifyState)
    (l : list (string * string)) :
  in_cooldown (timestamp f) (last_notification_time st) = true ->
  snd (channels stream f st l) = []
  /\ last_notification_time (fst (channels stream f st l))
     = last_notification_time st.
Proof.
  revert st; induction l as [|[tok lang] l IH]; intros st H.
  - split; reflexivity.
  - rewrite notify_channels_cons.
    rewrite (notify_channel_suppressed stream f st tok lang H). cbn [fst snd].
    apply (IH (mkNotifyState (last_notification_time st) (Some tok)
                 (Some lang) (frame_with_detections st)) H).
Qed.

(** A channel gets at most one send, and no other token is sent to. *)
Lemma notify_channel_tokens (stream : string) (f : Frame) (st : NotifyState)
    (tok lang : string) :
  incl (map snd (sends (snd (channel stream f st (tok, lang))))) [tok]
  /\ (length (sends (snd (channel stream f st (tok, lang)))) <= 1)%nat.
Proof.
  subst channel. unfold notify_channel.
  destruct (in_cooldown _ _); [split; [intros ? [] | simpl; lia]|].
  destruct (compose_message _ _ _ _) as [m|]; [|split; [intros ? [] | simpl; lia]].
  destruct (m =? "")%string; [split; [intros ? [] | simpl; lia]|].
  destruct (send_notification m tok =? 200)%Z; simpl;
    (split; [intros x [<- | []]; now left | lia]).
Qed.

(** In a pass no token is sent to twice, and only configured tokens are
    sent to. *)
Lemma notify_channels_tokens (stream : string) (f : Frame) (st : NotifyState)
    (l : list (string * string)) :
  NoDup (map fst l) ->
  NoDup (map snd (sends (snd (channels stream f st l))))
  /\ incl (map snd (sends (snd (channels stream f st l)))) (map fst l).
Proof.
  revert st; induction l as [|[tok lang] l IH]; intros st Hnd.
  - split; [constructor | intros ? []].
  - inversion Hnd as [|? ? Hn Hnd']; subst.
    rewrite notify_channels_cons. cbn [snd]. rewrite sends_app, map_app.
    destruct (notify_channel_tokens stream f st tok lang) as [Hi Hl].
    destruct (IH (fst (channel stream f st (tok, lang))) Hnd') as [IH1 IH2].
    split.
    + destruct (sends (snd (channel stream f st (tok, lang)))) as [|[m t] [|? ?]];
        simpl in *; [assumption | | lia].
      constructor; [|assumption].
      assert (t = tok) by (destruct (Hi t (or_introl eq_refl)) as [<- | []]; reflexivity).
      subst t. intros H. apply Hn. now apply IH2.
    + intros x Hx. apply in_app_or in Hx as [Hx | Hx].
      * destruct (Hi x Hx) as [<- | []]. now left.
      * right. now apply IH2.
Qed.

End Notifications.

(** ** The capture loop *)

Section CaptureLoop.
Variable translate_warning : list string -> string -> list string.
Variable send_notification : string -> string -> Z.
Variable is_windows : bool.

Let frame := process_frame translate_warning send_notification is_windows.
Let loop := capture_loop translate_warning send_notification is_windows.

(** With channels configured, a frame sends what its notification loop
    sends, and hands on the loop's timestamp. *)
Lemma process_frame_channels (site : option string) (stream : string)
    (ch : string * string) (l : list (string * string)) (f : Frame) (last : Z)
    (cap : StreamCapture) :
  let r := notify_channels translate_warning send_notification stream f
             (mkNotifyState last None None None) (ch :: l) in
  sends (snd (frame site stream (Some (ch :: l)) f last cap)) = sends (snd r)
  /\ worker_deletions (snd (frame site stream (Some (ch :: l)) f last cap))
     = worker_deletions (snd r)
  /\ fst (fst (frame site stream (Some (ch :: l)) f last cap))
     = last_notification_time (fst r).
Proof.
  subst frame. unfold process_frame. cbv zeta.
  destruct (notify_channels _ _ _ _ _ _) as [st t]. cbn [fst snd].
  rewrite sends_app, worker_deletions_app.
  destruct is_windows; simpl; rewrite !app_nil_r; auto.
Qed.

Lemma capture_loop_cons (site : option string) (stream : string)
    (n : option (list (string * string))) (f : Frame) (frames : list Frame)
    (last : Z) (cap : StreamCapture) :
  snd (loop site stream n (f :: frames) last cap)
  = (snd (frame site stream n f last cap)
     ++ snd (loop site stream n frames
               (fst (fst (frame site stream n f last cap)))
               (snd (fst (frame site stream n f last cap)))))%list.
Proof.
  subst loop frame. cbn [capture_loop].
  destruct (process_frame _ _ _ _ _ _ _ _ _) as [[last1 cap1] t1]. cbn [fst snd].
  destruct (capture_loop _ _ _ _ _ _ _ _ _) as [cap2 t2]. reflexivity.
Qed.

(** Two frames of one stream with one channel, each with a message the
    transport accepts: the second is sent when it comes 301 seconds
    after the first, and suppressed when it comes 100 seconds after. *)
Lemma two_frames_apart (site : option string) (stream tok lang : string)
    (f1 f2 : Frame) (last : Z) (cap : StreamCapture) (m1 m2 : string) :
  in_cooldown (timestamp f1) last = false ->
  compose_message translate_warning stream f1 lang = Some m1 -> m1 <> "" ->
  compose_message translate_warning stream f2 lang = Some m2 -> m2 <> "" ->
  send_notification m1 tok = 200%Z ->
  send_notification m2 tok = 200%Z ->
  let t := snd (loop site stream (Some [(tok, lang)]) [f1; f2] last cap) in
  (timestamp f2 - timestamp f1 == 301 -> sends t = [(m1, tok); (m2, tok)])%Q
  /\ (timestamp f2 - timestamp f1 == 100 -> sends t = [(m1, tok)])%Q.
Proof.
  intros Hc Hm1 Hn1 Hm2 Hn2 Hs1 Hs2 t. subst t.
  rewrite !capture_loop_cons. subst loop. cbn [capture_loop snd].
  rewrite app_nil_r, sends_app.
  destruct (process_frame_channels site stream (tok, lang) [] f1 last cap)
    as (S1 & _ & L1).
  rewrite S1, L1. clear S1 L1.
  rewrite notify_channels_cons. cbn [notify_channels fst snd].
  rewrite app_nil_r.
  destruct (notify_channel_send translate_warning send_notification stream f1
              (mkNotifyState last None None None) tok lang m1 Hc Hm1 Hn1)
    as [S1 L1].
  rewrite Hs1, Z.eqb_refl in L1.
  rewrite S1, L1. clear S1 L1.
  set (cap1 := snd (fst (frame site stream (Some [(tok, lang)]) f1 last cap))).
  destruct (process_frame_channels site stream (tok, lang) [] f2
              (int_of_float (timestamp f1)) cap1) as (S2 & _ & _).
  rewrite S2. clear S2.
  rewrite notify_channels_cons. cbn [notify_channels fst snd]. rewrite app_nil_r.
  pose proof (int_of_float_bounds (timestamp f1)) as [B1 B2].
  split; intros Hd.
  - assert (Hc2 : in_cooldown (timestamp f2) (int_of_float (timestamp f1)) = false).
    { apply in_cooldown_false. lra. }
    destruct (notify_channel_send translate_warning send_notification stream f2
                (mkNotifyState (int_of_float (timestamp f1)) None None None)
                tok lang m2 Hc2 Hm2 Hn2) as [S2 _].
    now rewrite S2.
  - assert (Hc2 : in_cooldown (timestamp f2) (int_of_float (timestamp f1)) = true).
    { apply in_cooldown_spec. lra. }
    now rewrite (notify_channel_suppressed translate_warning send_notification
                   stream f2 (mkNotifyState (int_of_float (timestamp f1)) None None None)
                   tok lang Hc2).
Qed.

End CaptureLoop.

(** ** The cooldown of a stream *)

(** C5 (amended). In the notification pass of a frame taken at [now],
    over the channels in their order:
    - a channel checked while [now] minus the last-sent timestamp is
      below 300 seconds is suppressed, and nothing is sent to it;
    - a channel with a message, checked outside the cooldown, gets one
      send and no retry; when the send succeeds the last-sent timestamp
      becomes [int(now)], that is [now] without its fraction, at once,
      and every later channel of the pass is suppressed; when it fails
      the timestamp stays as it was;
    - of two frames with accepted messages, the second is sent when it
      comes 301 seconds after the first and suppressed when it comes
      100 seconds after;
    - no channel is sent to twice in a pass. *)
Theorem notification_cooldown
    (translate_warning : list string -> string -> list string)
    (send_notification : string -> string -> Z) :
  (forall stream f st tok lang,
      in_cooldown (timestamp f) (last_notification_time st) = true ->
      let r := notify_channel translate_warning send_notification stream f st
                 (tok, lang) in
      snd r = [] /\ last_notification_time (fst r) = last_notification_time st)
  /\ (forall stream f st tok lang msg,
         in_cooldown (timestamp f) (last_notification_time st) = false ->
         compose_message translate_warning stream f lang = Some msg ->
         msg <> "" ->
         let r := notify_channel translate_warning send_notification stream f st
                    (tok, lang) in
         sends (snd r) = [(msg, tok)]
         /\ (send_notification msg tok = 200%Z ->
             last_notification_time (fst r) = int_of_float (timestamp f)
             /\ forall rest,
                 snd (notify_channels translate_warning send_notification
                        stream f (fst r) rest) = [])
         /\ (send_notification msg tok <> 200%Z ->
             last_notification_time (fst r) = last_notification_time st))
  /\ (forall is_windows site stream tok lang f1 f2 last cap m1 m2,
         in_cooldown (timestamp f1) last = false ->
         compose_message translate_warning stream f1 lang = Some m1 -> m1 <> "" ->
         compose_message translate_warning stream f2 lang = Some m2 -> m2 <> "" ->
         send_notification m1 tok = 200%Z ->
         send_notification m2 tok = 200%Z ->
         let t := snd (capture_loop translate_warning send_notification is_windows
                         site stream (Some [(tok, lang)]) [f1; f2] last cap) in
         (timestamp f2 - timestamp f1 == 301 -> sends t = [(m1, tok); (m2, tok)])%Q
         /\ (timestamp f2 - timestamp f1 == 100 -> sends t = [(m1, tok)])%Q)
  /\ (forall stream f st channels,
         NoDup (map fst channels) ->
         NoDup (map snd (sends (snd (notify_channels translate_warning
                                       send_notification stream f st channels))))).
Proof.
  split; [|split; [|split]].
  - intros stream f st tok lang H r. subst r.
    rewrite notify_channel_suppressed by assumption. auto.
  - intros stream f st tok lang msg Hc Hm Hne r. subst r.
    destruct (notify_channel_send translate_warning send_notification stream f st
                tok lang msg Hc Hm Hne) as [S L].
    split; [exact S|]. split.
    + intros Hok. rewrite Hok, Z.eqb_refl in L. split; [exact L|].
      intros rest. apply notify_channels_suppressed.
      rewrite L. apply in_cooldown_after_send.
    + intros Hko. apply Z.eqb_neq in Hko. now rewrite Hko in L.
  - intros. now apply two_frames_apart.
  - intros stream f st channels Hnd. now apply notify_channels_tokens.
Qed.

(** C5 (as stated) fails where it has a successful send set the
    last-sent timestamp to [now]: for a frame taken at 1000.5 the send
    succeeds and the timestamp becomes 1000. *)
Lemma last_sent_is_truncated :
  let r := notify_channel SampleFrames.english SampleFrames.always_ok "entrance"
             SampleFrames.night (mkNotifyState 0 None None None) ("tok", "en") in
  length (sends (snd r)) = 1%nat
  /\ last_notification_time (fst r) = 1000%Z
  /\ ~ (inject_Z (last_notification_time (fst r)) == timestamp SampleFrames.night)%Q.
Proof.
  split; [reflexivity|]. split; [reflexivity|].
  vm_compute. discriminate.
Qed.

(** ** The first frame of a worker *)

(** C10 (amended). A worker started at [now] sets its last-notification
    timestamp to [int(now) - 300]: the current time in whole seconds,
    its fraction dropped, minus the 300-second window. So for a first
    frame taken at or after the start, and for every configuration, the
    cooldown test is false for the first notification target: that
    target is decided on its message alone, and is sent to when it has
    one. Once that send is accepted, the later targets of the first
    frame are suppressed like those of any frame. *)
Theorem first_frame_not_suppressed
    (translate_warning : list string -> string -> list string)
    (send_notification : string -> string -> Z) (is_windows : bool)
    (initial_interval : Z) (now : Q) (url : string) (site : option string)
    (stream tok lang : string) (rest : list (string * string)) (f : Frame)
    (frames : list Frame) :
  (0 <= now)%Q ->
  (now <= timestamp f)%Q ->
  let last := initial_last_notification_time now in
  let first := notify_channel translate_warning send_notification stream f
                 (mkNotifyState last None None None) (tok, lang) in
  last = (Qfloor now - 300)%Z
  /\ (300 <= timestamp f - inject_Z last)%Q
  /\ in_cooldown (timestamp f) last = false
  /\ (compose_message translate_warning stream f lang = None ->
      snd first = [WorkerLog "No warnings or outside notification time."])
  /\ (forall msg,
        compose_message translate_warning stream f lang = Some msg ->
        msg <> "" ->
        In (SendNotification msg tok)
           (snd (process_single_stream translate_warning send_notification
                   is_windows initial_interval now url site stream
                   (Some ((tok, lang) :: rest)) (f :: frames)))
        /\ (send_notification msg tok = 200%Z ->
            sends (snd (process_frame translate_warning send_notification
                          is_windows site stream (Some ((tok, lang) :: rest)) f
                          last (mkStreamCapture url initial_interval)))
            = [(msg, tok)])).
Proof.
  intros H0 H1 last first.
  pose proof (in_cooldown_start now (timestamp f) H0 H1) as Hc. fold last in Hc.
  split.
  { subst last. unfold initial_last_notification_time.
    now rewrite int_of_float_floor. }
  split; [now apply in_cooldown_false|].
  split; [exact Hc|].
  split.
  { intros Hm. subst first. unfold notify_channel.
    cbn [last_notification_time]. now rewrite Hc, Hm. }
  intros msg Hm Hne.
  destruct (notify_channel_send translate_warning send_notification stream f
              (mkNotifyState last None None None) tok lang msg Hc Hm Hne)
    as [S L].
  destruct (process_frame_channels translate_warning send_notification
              is_windows site stream (tok, lang) rest f last
              (mkStreamCapture url initial_interval)) as (PS & _ & _).
  rewrite notify_channels_cons in PS. cbn [snd] in PS. rewrite sends_app, S in PS.
  split.
  - unfold process_single_stream.
    destruct (capture_loop _ _ _ _ _ _ _ _ _) as [cap t] eqn:E. cbn [snd].
    apply in_or_app; left.
    assert (Et : t = snd (capture_loop translate_warning send_notification
                            is_windows site stream (Some ((tok, lang) :: rest))
                            (f :: frames) last
                            (mkStreamCapture url initial_interval)))
      by (subst last; now rewrite E).
    rewrite Et, capture_loop_cons. apply in_or_app; left.
    assert (Hin : In (msg, tok)
                    (sends (snd (process_frame translate_warning send_notification
                                   is_windows site stream
                                   (Some ((tok, lang) :: rest)) f last
                                   (mkStreamCapture url initial_interval)))))
      by (rewrite PS; now left).
    revert Hin. generalize (snd (process_frame translate_warning send_notification
                                   is_windows site stream
                                   (Some ((tok, lang) :: rest)) f last
                                   (mkStreamCapture url initial_interval))).
    intros l. induction l as [|e l IH]; [intros []|].
    destruct e; simpl; auto.
    intros [E' | Hin]; [injection E' as -> ->; now left | auto].
  - intros Hok. rewrite PS. rewrite Hok, Z.eqb_refl in L.
    destruct (notify_channels_suppressed translate_warning send_notification
                stream f
                (fst (notify_channel translate_warning send_notification stream f
                        (mkNotifyState last None None None) (tok, lang))) rest)
      as [N _].
    { rewrite L. apply in_cooldown_after_send. }
    rewrite N. reflexivity.
Qed.

Lemma first_frame_not_suppressed_witness :
  let last := initial_last_notification_time (1000 # 1) in
  let first := notify_channel SampleFrames.english SampleFrames.always_ok
                 "entrance" SampleFrames.night
                 (mkNotifyState last None None None) ("tok", "en") in
  last = (Qfloor (1000 # 1) - 300)%Z
  /\ (300 <= timestamp SampleFrames.night - inject_Z last)%Q
  /\ in_cooldown (timestamp SampleFrames.night) last = false
  /\ (compose_message SampleFrames.english "entrance" SampleFrames.night "en"
      = None ->
      snd first = [WorkerLog "No warnings or outside notification time."])
  /\ (forall msg,
        compose_message SampleFrames.english "entrance" SampleFrames.night "en"
        = Some msg ->
        msg <> "" ->
        In (SendNotification msg "tok")
           (snd (process_single_stream SampleFrames.english SampleFrames.always_ok
                   false 15 (1000 # 1) "rtsp://cam/2" (Some "siteA") "entrance"
                   (Some [("tok", "en"); ("tok2", "en")]) [SampleFrames.night]))
        /\ (SampleFrames.always_ok msg "tok" = 200%Z ->
            sends (snd (process_frame SampleFrames.english SampleFrames.always_ok
                          false (Some "siteA") "entrance"
                          (Some [("tok", "en"); ("tok2", "en")])
                          SampleFrames.night last
                          (mkStreamCapture "rtsp://cam/2" 15)))
            = [(msg, "tok")])).
Proof.
  apply (first_frame_not_suppressed SampleFrames.english SampleFrames.always_ok
           false 15 (1000 # 1) "rtsp://cam/2" (Some "siteA") "entrance" "tok" "en"
           [("tok2", "en")] SampleFrames.night []).
  - unfold Qle; simpl; lia.
  - unfold Qle; simpl; lia.
Defined.

(** C10 (as stated) fails twice. The starting value is not the current
    time minus 300 seconds: a worker started at 1000.5 starts from 700,
    not from 700.5. And the first frame is not free of the cooldown for
    every configuration: with two targets, the send to the first is
    accepted, and the second target, checked on the same first frame, is
    suppressed by the cooldown. *)
Lemma first_frame_second_target_suppressed :
  initial_last_notification_time (2001 # 2) = 700%Z
  /\ ~ (inject_Z (initial_last_notification_time (2001 # 2))
        == (2001 # 2) - 300)%Q
  /\ (let last := initial_last_notification_time (1000 # 1) in
      let first := notify_channel SampleFrames.english SampleFrames.always_ok
                     "entrance" SampleFrames.night
                     (mkNotifyState last None None None) ("tok", "en") in
      map snd (sends (snd first)) = ["tok"]
      /\ in_cooldown (timestamp SampleFrames.night)
           (last_notification_time (fst first)) = true
      /\ snd (notify_channel SampleFrames.english SampleFrames.always_ok
                "entrance" SampleFrames.night (fst first) ("tok2", "en")) = []
      /\ map snd
           (sends (snd (process_single_stream SampleFrames.english
                          SampleFrames.always_ok false 15 (1000 # 1)
                          "rtsp://cam/2" (Some "siteA") "entrance"
                          (Some [("tok", "en"); ("tok2", "en")])
                          [SampleFrames.night])))
         = ["tok"]).
Proof.
  split; [reflexivity|]. split; [vm_compute; discriminate|].
  repeat split; reflexivity.
Qed.

(** ** The message of a channel *)





(** [sub in s] holds exactly when [sub] is read at some place of [s]. *)
Lemma is_substring_spec (sub s : string) :
  sub <> "" ->
  (is_substring sub s = true
   <-> exists m, substring m (String.length sub) s = sub).
Proof.
  intros Hne. unfold is_substring.
  destruct (index 0 sub s) as [m|] eqn:E.
  - split; [intros _ | reflexivity].
    exists m. eapply index_correct1; eassumption.
  - split; [discriminate|]. intros (m & Hm).
    exfalso. revert Hm. apply (index_correct3 0 m sub s E Hne). lia.
Qed.



(** ** Who deletes buffer keys *)

Section WorkerDeletions.
Variable translate_warning : list string -> string -> list string.
Variable send_notification : string -> string -> Z.
Variable is_windows : bool.
Variable initial_interval : Z.

Lemma notify_channel_no_deletion (stream : string) (f : Frame) (st : NotifyState)
    (ch : string * string) :
  worker_deletions
    (snd (notify_channel translate_warning send_notification stream f st ch)) = [].
Proof.
  destruct ch as [tok lang]. unfold notify_channel.
  destruct (in_cooldown _ _); [reflexivity|].
  destruct (compose_message _ _ _ _) as [m|]; [|reflexivity].
  destruct (m =? "")%string; [reflexivity|].
  destruct (send_notification m tok =? 200)%Z; reflexivity.
Qed.

Lemma notify_channels_no_deletion (stream : string) (f : Frame) (st : NotifyState)
    (l : list (string * string)) :
  worker_deletions
    (snd (notify_channels translate_warning send_notification stream f st l)) = [].
Proof.
  revert st; induction l as [|ch l IH]; intros st; [reflexivity|].
  rewrite notify_channels_cons. cbn [snd].
  now rewrite worker_deletions_app, notify_channel_no_deletion, IH.
Qed.

Lemma process_frame_no_deletion (site : option string) (stream : string)
    (n : option (list (string * string))) (f : Frame) (last : Z)
    (cap : StreamCapture) :
  worker_deletions
    (snd (process_frame translate_warning send_notification is_windows
            site stream n f last cap)) = [].
Proof.
  destruct n as [[|ch l]|].
  - unfold process_frame. destruct is_windows; reflexivity.
  - destruct (process_frame_channels translate_warning send_notification
                is_windows site stream ch l f last cap) as (_ & D & _).
    rewrite D. apply notify_channels_no_deletion.
  - unfold process_frame. destruct is_windows; reflexivity.
Qed.

Lemma capture_loop_no_deletion (site : option string) (stream : string)
    (n : option (list (string * string))) (frames : list Frame) (last : Z)
    (cap : StreamCapture) :
  worker_deletions
    (snd (capture_loop translate_warning send_notification is_windows
            site stream n frames last cap)) = [].
Proof.
  revert last cap; induction frames as [|f frames IH]; intros last cap;
    [reflexivity|].
  rewrite capture_loop_cons.
  now rewrite worker_deletions_app, process_frame_no_deletion, IH.
Qed.

Lemma process_single_stream_no_deletion (now : Q) (url : string)
    (site : option string) (stream : string)
    (n : option (list (string * string))) (frames : list Frame) :
  worker_deletions
    (snd (process_single_stream translate_warning send_notification is_windows
            initial_interval now url site stream n frames)) = [].
Proof.
  unfold process_single_stream.
  pose proof (capture_loop_no_deletion site stream n frames
                (initial_last_notification_time now)
                (mkStreamCapture url initial_interval)) as H.
  destruct (capture_loop _ _ _ _ _ _ _ _ _) as [cap t]. cbn [snd] in *.
  now rewrite worker_deletions_app, H.
Qed.

End WorkerDeletions.

Lemma worker_deletions_firstn (n : nat) (t : list worker_effect) :
  worker_deletions t = [] -> worker_deletions (firstn n t) = [].
Proof.
  revert n; induction t as [|e t IH]; intros [|n] H; try reflexivity.
  destruct e; simpl in *; try discriminate; auto.
Qed.

(** The key of the [finally] block, written out. *)
Lemma finally_key (c : AppConfig) :
  site_stream (get_none (site c)) (stream_label c)
  = (match site c with Some (Some s) => s | _ => "None" end)
    ++ "_" ++ (match stream_name c with Some n => n | None => "prediction_visual" end).
Proof. unfold stream_label. destruct (site c) as [[s|]|]; reflexivity. Qed.

Section WorkerEndings.
Variable translate_warning : list string -> string -> list string.
Variable send_notification : string -> string -> Z.
Variable initial_interval : Z.

(** When the capture ends of itself, [process_streams_ending] is
    [process_streams]. *)
Lemma process_streams_ending_returns (is_windows : bool) (now : Q)
    (c : AppConfig) (frames : list Frame) :
  process_streams_ending translate_warning send_notification is_windows
    initial_interval CaptureEnds now c frames
  = process_streams translate_warning send_notification is_windows
      initial_interval now c frames.
Proof.
  unfold process_streams_ending, process_streams, try_block, finally_block.
  destruct is_windows; [now rewrite app_nil_r | reflexivity].
Qed.

Lemma try_block_no_deletion (is_windows : bool) (how : stream_end) (now : Q)
    (c : AppConfig) (frames : list Frame) :
  worker_deletions
    (try_block translate_warning send_notification is_windows initial_interval
       how now c frames) = [].
Proof.
  destruct how as [|n]; unfold try_block.
  - apply process_single_stream_no_deletion.
  - apply worker_deletions_firstn. apply capture_loop_no_deletion.
Qed.

End WorkerEndings.

(** C9 (amended). Buffer keys are deleted by the reconciliation pass
    and also by the worker itself, in one place: the [finally] block of
    [process_streams]. While it processes frames a worker deletes no
    key. When [process_single_stream] returns or raises, the worker
    deletes its own key (site, underscore, stream name) once, and logs
    it, as its last action. A worker that [stop_process] terminates
    before it reaches that block deletes nothing, and on Windows a
    worker never deletes a key. *)
Theorem worker_deletes_own_key_at_end
    (translate_warning : list string -> string -> list string)
    (send_notification : string -> string -> Z) (initial_interval : Z)
    (how : stream_end) (now : Q) (c : AppConfig) (frames : list Frame) :
  let key := (match site c with Some (Some s) => s | _ => "None" end)
             ++ "_" ++ (match stream_name c with
                        | Some n => n
                        | None => "prediction_visual"
                        end) in
  let run := fun (is_windows : bool) (terminated_after : option nat) =>
    worker_process translate_warning send_notification is_windows
      initial_interval how terminated_after now c frames in
  (exists body,
      run false None
      = (body ++ [WorkerRedisDelete key; WorkerLog ("Deleted Redis key: " ++ key)])%list
      /\ worker_deletions body = []
      /\ forall n, (n <= length body)%nat ->
           worker_deletions (run false (Some n)) = [])
  /\ (forall t, worker_deletions (run false t) = []
                \/ worker_deletions (run false t) = [key])
  /\ (forall t, worker_deletions (run true t) = []).
Proof.
  cbv zeta. rewrite <- finally_key.
  set (key := site_stream (get_none (site c)) (stream_label c)).
  set (body := try_block translate_warning send_notification false
                 initial_interval how now c frames).
  assert (E : process_streams_ending translate_warning send_notification false
                initial_interval how now c frames
              = (body ++ [WorkerRedisDelete key;
                          WorkerLog ("Deleted Redis key: " ++ key)])%list)
    by reflexivity.
  assert (B : worker_deletions body = []) by apply try_block_no_deletion.
  assert (P : forall n, (n <= length body)%nat ->
            worker_deletions
              (firstn n (body ++ [WorkerRedisDelete key;
                                  WorkerLog ("Deleted Redis key: " ++ key)]))
            = []).
  { intros n Hn. rewrite firstn_app.
    replace (n - length body)%nat with 0%nat by lia.
    cbn [firstn]. rewrite app_nil_r. now apply worker_deletions_firstn. }
  split; [|split].
  - exists body. unfold worker_process. rewrite E. auto.
  - intros [n|]; unfold worker_process; rewrite E.
    + destruct (Nat.le_gt_cases n (length body)) as [Hn | Hn]; [left; auto|].
      right. rewrite firstn_app, firstn_all2 by lia.
      rewrite worker_deletions_app, B.
      destruct (n - length body)%nat as [|[|[|k]]] eqn:Ek; [lia | | |];
        reflexivity.
    + right. now rewrite worker_deletions_app, B.
  - intros t.
    assert (W : worker_deletions
                  (process_streams_ending translate_warning send_notification true
                     initial_interval how now c frames) = []).
    { unfold process_streams_ending. rewrite worker_deletions_app.
      now rewrite try_block_no_deletion. }
    destruct t as [n|]; unfold worker_process; [|exact W].
    now apply worker_deletions_firstn.
Qed.

(** C9 (as stated) fails: a worker whose capture ends at once deletes
    its buffer key itself. *)
Lemma worker_deletes_buffer_key :
  In (WorkerRedisDelete "siteA_prediction_visual")
     (process_streams SampleFrames.english SampleFrames.always_ok false 15
        (1000 # 1) Sample.cam1 []).
Proof. vm_compute. auto. Qed.

(** ** Quality selection *)

Lemma first_available_Some (tiers : list string) (streams : PyDict.t string)
    (url : string) :
  Quality.first_available tiers streams = Some url <->
  exists pre q post,
    tiers = (pre ++ q :: post)%list
    /\ PyDict.get q streams = Some url
    /\ forall q', In q' pre -> PyDict.get q' streams = None.
Proof.
  induction tiers as [|t tiers IH]; simpl.
  - split; [discriminate|]. intros (pre & q & post & E & _).
    destruct pre; discriminate.
  - destruct (PyDict.get t streams) as [u|] eqn:Et.
    + split.
      * intros H. exists [], t, tiers. repeat split; [congruence | intros ? []].
      * intros (pre & q & post & E & Hq & Hpre).
        destruct pre as [|p pre]; simpl in E; injection E as E1 E2; subst.
        -- congruence.
        -- rewrite (Hpre p (or_introl eq_refl)) in Et. discriminate.
    + rewrite IH. split.
      * intros (pre & q & post & -> & Hq & Hpre).
        exists (t :: pre), q, post. repeat split; auto.
        intros q' [<- | H]; auto.
      * intros (pre & q & post & E & Hq & Hpre).
        destruct pre as [|p pre]; simpl in E; injection E as E1 E2; subst.
        -- congruence.
        -- exists pre, q, post. repeat split; auto.
           intros q' H. apply Hpre. now right.
Qed.

Lemma first_available_None (tiers : list string) (streams : PyDict.t string) :
  Quality.first_available tiers streams = None <->
  forall q, In q tiers -> PyDict.get q streams = None.
Proof.
  induction tiers as [|t tiers IH]; simpl.
  - split; [intros _ q [] | reflexivity].
  - destruct (PyDict.get t streams) as [u|] eqn:Et.
    + split; [discriminate|]. intros H.
      rewrite (H t (or_introl eq_refl)) in Et. discriminate.
    + rewrite IH. split.
      * intros H q [<- | Hq]; auto.
      * intros H q Hq. apply H. now right.
Qed.

(** C8. The fallback selection follows the capacity ladder: with at
    least 10 Mbps every tier is allowed, from 5 up to 10 Mbps the tiers
    from 720p down, below 5 Mbps the tiers from 480p down; the URL
    selected is that of the highest allowed tier the source advertises;
    when the source advertises no allowed tier, and so when it
    advertises nothing, no URL is selected and the session cannot
    proceed. The four cases of the tests come out as best, 720p, 480p
    and no selection. *)
Theorem select_quality_ladder (download : Q) (streams : PyDict.t string) :
  ((10 <= download)%Q -> Quality.allowed download = Quality.ladder)
  /\ ((5 <= download)%Q -> (download < 10)%Q ->
      Quality.allowed download = ["720p"; "480p"; "360p"; "240p"])
  /\ ((download < 5)%Q -> Quality.allowed download = ["480p"; "360p"; "240p"])
  /\ (forall url,
         Quality.select_quality_based_on_speed download streams = Some url <->
         exists pre q post,
           Quality.allowed download = (pre ++ q :: post)%list
           /\ PyDict.get q streams = Some url
           /\ forall q', In q' pre -> PyDict.get q' streams = None)
  /\ ((forall q, In q (Quality.allowed download) -> PyDict.get q streams = None) ->
      Quality.select_quality_based_on_speed download streams = None
      /\ Quality.open_fallback download streams = Quality.Fatal)
  /\ Quality.select_quality_based_on_speed download [] = None
  /\ Quality.select_quality_based_on_speed (20 # 1) SampleStreams.high
     = Some "http://best.stream"
  /\ Quality.select_quality_based_on_speed (7 # 1) SampleStreams.medium
     = Some "http://720p.stream"
  /\ Quality.select_quality_based_on_speed (3 # 1) SampleStreams.low
     = Some "http://480p.stream"
  /\ Quality.select_quality_based_on_speed (20 # 1) [] = None.
Proof.
  assert (Hlt : forall a, (download < a)%Q -> Qle_bool a download = false).
  { intros a H. apply not_true_is_false. intros E.
    apply Qle_bool_iff in E. apply (Qlt_not_le _ _ H E). }
  repeat split; try reflexivity.
  - intros H. apply Qle_bool_iff in H.
    unfold Quality.allowed, Quality.cap_of.
    change (inject_Z 10) with (10%Q). now rewrite H.
  - intros H5 H10. apply Qle_bool_iff in H5.
    unfold Quality.allowed, Quality.cap_of.
    change (inject_Z 10) with (10%Q). change (inject_Z 5) with (5%Q).
    now rewrite (Hlt _ H10), H5.
  - intros H5.
    assert (H10 : (download < 10)%Q) by lra.
    unfold Quality.allowed, Quality.cap_of.
    change (inject_Z 10) with (10%Q). change (inject_Z 5) with (5%Q).
    now rewrite (Hlt _ H10), (Hlt _ H5).
  - apply first_available_Some.
  - apply first_available_Some.
  - apply first_available_None. assumption.
  - unfold Quality.open_fallback.
    assert (E : Quality.select_quality_based_on_speed download streams = None)
      by now apply first_available_None.
    now rewrite E.
  - apply first_available_None. reflexivity.
Qed.

(** ** The state stays well formed *)

Section DictKeys.
Context {V : Type}.
Implicit Types (d : PyDict.t V) (k : string) (v : V).

Lemma keys_remove k k' d :
  In k' (PyDict.keys (PyDict.remove k d)) -> In k' (PyDict.keys d).
Proof.
  induction d as [|[k0 v0] d IH]; simpl; [auto|].
  destruct (k =? k0)%string; simpl; intuition.
Qed.

Lemma keys_remove_other k d :
  NoDup (PyDict.keys d) -> ~ In k (PyDict.keys (PyDict.remove k d)).
Proof.
  induction d as [|[k0 v0] d IH]; simpl; intros Hnd; [auto|].
  inversion Hnd as [|? ? Hn Hnd']; subst.
  destruct (k =? k0)%string eqn:E; simpl.
  - apply String.eqb_eq in E. now subst.
  - apply String.eqb_neq in E. intros [H | H]; [congruence | now apply IH].
Qed.

Lemma NoDup_keys_remove k d :
  NoDup (PyDict.keys d) -> NoDup (PyDict.keys (PyDict.remove k d)).
Proof.
  induction d as [|[k0 v0] d IH]; simpl; intros Hnd; [constructor|].
  inversion Hnd as [|? ? Hn Hnd']; subst.
  destruct (k =? k0)%string; simpl; [assumption|].
  constructor; [|auto]. intros H. apply Hn. eapply keys_remove; eassumption.
Qed.

Lemma NoDup_keys_set k v d :
  NoDup (PyDict.keys d) -> NoDup (PyDict.keys (PyDict.set k v d)).
Proof.
  induction d as [|[k0 v0] d IH]; simpl; intros Hnd.
  - repeat constructor. intros [].
  - inversion Hnd as [|? ? Hn Hnd']; subst.
    destruct (k =? k0)%string eqn:E; simpl; [assumption|].
    constructor; [|auto]. intros H. apply keys_set in H as [-> | H].
    + rewrite String.eqb_refl in E. discriminate.
    + contradiction.
Qed.
End DictKeys.

Lemma well_formed_initial : well_formed initial_app.
Proof. split; [constructor | intros url []]. Qed.

Lemma well_formed_drop_worker (url : string) (app : MainApp) :
  well_formed app -> well_formed (drop_worker url app).
Proof.
  intros [Hnd Hh]. split; simpl.
  - now apply NoDup_keys_remove.
  - intros url' Hin.
    assert (N : url' <> url).
    { intros ->. now apply (keys_remove_other url (running_processes app)). }
    rewrite get_remove_other by assumption.
    apply Hh. eapply keys_remove; eassumption.
Qed.

Lemma well_formed_put_worker (url : string) (c : AppConfig) (h : string)
    (app : MainApp) :
  well_formed app -> well_formed (put_worker url c h app).
Proof.
  intros [Hnd Hh]. split; simpl.
  - now apply NoDup_keys_set.
  - intros url' Hin. apply keys_set in Hin.
    destruct (string_dec url' url) as [-> | N].
    + rewrite get_set_same. discriminate.
    + rewrite get_set_other by assumption.
      destruct Hin as [-> | Hin]; [contradiction | auto].
Qed.

Lemma for_each_invariant {X} (I : MainApp -> Prop) (body : X -> M unit)
    (l : list X) :
  (forall x app, I app -> value (body x app) = Ok tt -> I (final (body x app))) ->
  forall app, I app -> value (for_each l body app) = Ok tt ->
              I (final (for_each l body app)).
Proof.
  intros Hb. induction l as [|x l IH]; intros app Hi; [auto|].
  rewrite for_each_cons.
  destruct (value (body x app)) as [[]|e] eqn:Ev; cbn [value final];
    [|discriminate].
  apply IH. now apply Hb.
Qed.

(** A pass that returns leaves the two dictionaries together. *)
Lemma reload_configurations_well_formed (is_expired : option string -> bool)
    (configurations : list AppConfig) (app : MainApp) :
  well_formed app ->
  value (reload_configurations is_expired configurations app) = Ok tt ->
  well_formed (final (reload_configurations is_expired configurations app)).
Proof.
  intros Hw. rewrite reload_configurations_run.
  destruct (current_configs_from configurations []) as [cc|]; [|discriminate].
  destruct (current_keys_from configurations) as [ks|]; [|discriminate].
  cbv zeta.
  assert (H1 : forall url a, well_formed a ->
             value (stop_removed_or_updated is_expired cc ks url a) = Ok tt ->
             well_formed (final (stop_removed_or_updated is_expired cc ks url a))).
  { intros url a Ha. rewrite stop_removed_or_updated_run.
    destruct (PyDict.get url (running_processes a)) as [w|]; [|discriminate].
    destruct (site (config w)) as [s|]; [|discriminate].
    cbv zeta.
    destruct (removed_or_expired is_expired (PyDict.get url cc)).
    - destruct (PyDict.get url (current_config_hashes a)); [|discriminate].
      intros _. now apply well_formed_drop_worker.
    - destruct (PyDict.get url cc) as [c|]; [|auto].
      destruct (compute_config_hash c) as [h|e]; [|discriminate].
      destruct (hash_differs h _); [|auto].
      intros _. now apply well_formed_put_worker. }
  assert (H2 : forall item a, well_formed a ->
             value (start_new is_expired item a) = Ok tt ->
             well_formed (final (start_new is_expired item a))).
  { intros [url c] a Ha. rewrite start_new_run.
    destruct (is_expired _); [auto|].
    destruct (PyDict.contains url _); [auto|].
    cbv zeta. destruct (compute_config_hash c) as [h|e]; [|discriminate].
    intros _. now apply well_formed_put_worker. }
  pose proof (for_each_invariant well_formed _ (PyDict.keys (running_processes app))
                H1 app Hw) as L1.
  destruct (value (for_each (PyDict.keys (running_processes app)) _ app))
    as [[]|e] eqn:Ev1; [|discriminate].
  cbn [value final]. intros Ev2.
  apply (for_each_invariant well_formed _ cc H2); auto.
Qed.

(** ** A pass over a state the file already describes *)

Lemma compute_config_hash_not_empty (c : AppConfig) (h : string) :
  compute_config_hash c = Ok h -> is_empty_config c = false.
Proof.
  unfold compute_config_hash, relevant_config, is_empty_config.
  destruct (video_url c); [reflexivity | discriminate].
Qed.

Lemma for_each_noop {X} (l : list X) (body : X -> M unit) (app : MainApp) :
  (forall x, In x l -> body x app = mkOutcome (Ok tt) app []) ->
  for_each l body app = mkOutcome (Ok tt) app [].
Proof.
  induction l as [|x l IH]; intros H; [reflexivity|].
  rewrite for_each_cons, (H x (or_introl eq_refl)). cbn [value final trace].
  rewrite IH; [reflexivity|]. intros y Hy. apply H. now right.
Qed.

Lemma for_each_only_logs {X} (l : list X) (body : X -> M unit) (app : MainApp) :
  (forall x, In x l ->
     exists t, body x app = mkOutcome (Ok tt) app t /\ only_logs t) ->
  exists t, for_each l body app = mkOutcome (Ok tt) app t /\ only_logs t.
Proof.
  induction l as [|x l IH]; intros H.
  - exists []. split; [reflexivity | intros e []].
  - destruct (H x (or_introl eq_refl)) as (t1 & E1 & L1).
    destruct (IH (fun y Hy => H y (or_intror Hy))) as (t2 & E2 & L2).
    exists (t1 ++ t2)%list. split.
    + rewrite for_each_cons, E1. cbn [value final trace]. now rewrite E2.
    + intros e He. apply in_app_or in He as [He | He]; auto.
Qed.

Lemma only_logs_lifecycle (t : list effect) : only_logs t -> lifecycle t = [].
Proof.
  induction t as [|e t IH]; intros H; [reflexivity|].
  destruct (H e (or_introl eq_refl)) as (msg & ->). simpl.
  apply IH. intros e' He'. apply H. now right.
Qed.

Section Settled.
Variable is_expired : option string -> bool.

(** The first loop leaves alone a worker that answers the file. *)
Lemma step_answers_noop (cc : PyDict.t AppConfig) (ks : list string)
    (url : string) (app : MainApp) :
  In url (PyDict.keys (running_processes app)) ->
  answers is_expired cc app url ->
  stop_removed_or_updated is_expired cc ks url app = mkOutcome (Ok tt) app [].
Proof.
  intros Hin Ha. rewrite stop_removed_or_updated_run.
  destruct (PyDict.get url (running_processes app)) as [w|] eqn:Ew.
  - destruct (Ha w Ew) as (Hs & c & h & Ec & Ee & Eh & Er).
    destruct (site (config w)) as [s|]; [|contradiction].
    cbv zeta. rewrite Ec. cbn [removed_or_expired].
    rewrite (compute_config_hash_not_empty c h Eh), Ee. cbn [orb].
    rewrite Eh, Er. unfold hash_differs. now rewrite String.eqb_refl.
  - apply get_None_keys in Ew. contradiction.
Qed.

(** The second loop leaves alone a record that is expired or running. *)
Lemma start_new_noop (url : string) (c : AppConfig) (app : MainApp) :
  (is_expired (get_none (expire_date c)) = false ->
   PyDict.contains url (running_processes app) = true) ->
  exists t, start_new is_expired (url, c) app = mkOutcome (Ok tt) app t
            /\ only_logs t.
Proof.
  intros H. rewrite start_new_run.
  destruct (is_expired (get_none (expire_date c))).
  - eexists. split; [reflexivity|]. intros e [<- | []]. eauto.
  - rewrite (H eq_refl). exists []. split; [reflexivity | intros e []].
Qed.

Lemma settled_noop (configurations : list AppConfig) (app : MainApp) :
  settled is_expired configurations app ->
  exists t,
    reload_configurations is_expired configurations app = mkOutcome (Ok tt) app t
    /\ only_logs t.
Proof.
  intros (cc & ks & Ecc & Eks & Ha & Hr).
  rewrite reload_configurations_run, Ecc, Eks. cbv zeta.
  rewrite for_each_noop.
  - cbn [value final trace].
    destruct (for_each_only_logs cc (start_new is_expired) app) as (t & E & L).
    + intros [url c] Hin. apply start_new_noop. now apply Hr.
    + exists t. rewrite E. split; [reflexivity | exact L].
  - intros url Hin. now apply step_answers_noop.
Qed.

End Settled.

(** ** What a pass that returns leaves behind *)

Lemma get_Some_keys {V} (k : string) (v : V) (d : PyDict.t V) :
  PyDict.get k d = Some v -> In k (PyDict.keys d).
Proof.
  intros H. destruct (in_dec string_dec k (PyDict.keys d)) as [Hin | Hn];
    [assumption|].
  apply get_None_keys in Hn. congruence.
Qed.

Lemma get_In_NoDup {V} (k : string) (v : V) (d : PyDict.t V) :
  NoDup (PyDict.keys d) -> In (k, v) d -> PyDict.get k d = Some v.
Proof.
  induction d as [|[k0 v0] d IH]; simpl; intros Hnd Hin; [destruct Hin|].
  inversion Hnd as [|? ? Hn Hnd']; subst.
  destruct Hin as [E | Hin].
  - injection E as -> ->. now rewrite String.eqb_refl.
  - destruct (k =? k0)%string eqn:E; [|auto].
    apply String.eqb_eq in E; subst k0. exfalso. apply Hn.
    change k with (fst (k, v)). now apply in_map.
Qed.

Section FirstLoopSettles.
Variable is_expired : option string -> bool.
Variable cc : PyDict.t AppConfig.
Variable ks : list string.
Hypothesis cc_site : forall url c, PyDict.get url cc = Some c -> site c <> None.

Let step := stop_removed_or_updated is_expired cc ks.

Lemma step_keeps_NoDup (url : string) (app : MainApp) :
  NoDup (PyDict.keys (running_processes app)) ->
  NoDup (PyDict.keys (running_processes (final (step url app)))).
Proof.
  intros Hnd. subst step. rewrite stop_removed_or_updated_run.
  destruct (PyDict.get url (running_processes app)) as [w|]; [|assumption].
  destruct (site (config w)) as [s|]; [|assumption].
  cbv zeta.
  destruct (removed_or_expired is_expired (PyDict.get url cc)).
  - destruct (PyDict.get url (current_config_hashes app)); simpl;
      now apply NoDup_keys_remove.
  - destruct (PyDict.get url cc) as [c|]; [|assumption].
    destruct (compute_config_hash c) as [h|e]; [|assumption].
    destruct (hash_differs h _); [|assumption].
    simpl. now apply NoDup_keys_set.
Qed.

(** The first loop starts no worker for a URL that had none. *)
Lemma step_keys_subset (url url' : string) (app : MainApp) :
  In url' (PyDict.keys (running_processes (final (step url app)))) ->
  In url' (PyDict.keys (running_processes app)).
Proof.
  subst step. rewrite stop_removed_or_updated_run.
  destruct (PyDict.get url (running_processes app)) as [w|] eqn:Ew; [|auto].
  destruct (site (config w)) as [s|]; [|auto].
  cbv zeta.
  destruct (removed_or_expired is_expired (PyDict.get url cc)).
  - destruct (PyDict.get url (current_config_hashes app)); simpl;
      apply keys_remove.
  - destruct (PyDict.get url cc) as [c|]; [|auto].
    destruct (compute_config_hash c) as [h|e]; [|auto].
    destruct (hash_differs h _); [|auto].
    simpl. intros H. apply keys_set in H as [-> | H]; [|assumption].
    eapply get_Some_keys; eassumption.
Qed.

(** After its iteration, the entry of the URL answers the file. *)
Lemma step_answers (url : string) (app : MainApp) :
  NoDup (PyDict.keys (running_processes app)) ->
  value (step url app) = Ok tt ->
  answers is_expired cc (final (step url app)) url.
Proof.
  intros Hnd. subst step. rewrite stop_removed_or_updated_run.
  destruct (PyDict.get url (running_processes app)) as [w|] eqn:Ew;
    [|discriminate].
  destruct (site (config w)) as [s|] eqn:Es; [|discriminate].
  cbv zeta.
  destruct (removed_or_expired is_expired (PyDict.get url cc)) eqn:Er.
  - destruct (PyDict.get url (current_config_hashes app)); [|discriminate].
    intros _ w' Hw'. simpl in Hw'.
    apply get_Some_keys in Hw'.
    now apply (keys_remove_other url (running_processes app)) in Hw'.
  - destruct (PyDict.get url cc) as [c|] eqn:Ec; [|discriminate Er].
    simpl in Er. apply orb_false_iff in Er as [_ Ee].
    destruct (compute_config_hash c) as [h|e] eqn:Eh; [|discriminate].
    destruct (hash_differs h _) eqn:Ed.
    + intros _ w' Hw'. simpl in Hw'. rewrite get_set_same in Hw'.
      injection Hw' as <-. simpl. split; [now apply (cc_site url)|].
      exists c, h. repeat split; auto. apply get_set_same.
    + intros _ w' Hw'. simpl in Hw'. rewrite Ew in Hw'. injection Hw' as <-.
      split; [congruence|]. exists c, h. repeat split; auto. simpl.
      unfold hash_differs in Ed.
      destruct (PyDict.get url (current_config_hashes app)) as [h'|];
        [|discriminate].
      apply negb_false_iff, String.eqb_eq in Ed. now subst.
Qed.

Lemma loop_frame (l : list string) (url : string) (app : MainApp) :
  ~ In url l ->
  PyDict.get url (running_processes (final (for_each l step app)))
  = PyDict.get url (running_processes app)
  /\ PyDict.get url (current_config_hashes (final (for_each l step app)))
     = PyDict.get url (current_config_hashes app).
Proof.
  subst step.
  revert app; induction l as [|x l IH]; intros app Hn; [auto|].
  assert (N : url <> x) by (intros ->; apply Hn; now left).
  assert (Hn' : ~ In url l) by (intros H; apply Hn; now right).
  destruct (step_frame is_expired cc ks x url app N) as [F1 F2].
  rewrite for_each_cons.
  destruct (value (stop_removed_or_updated is_expired cc ks x app));
    cbn [final]; [|auto].
  destruct (IH (final (stop_removed_or_updated is_expired cc ks x app)) Hn')
    as [G1 G2].
  split; congruence.
Qed.

Lemma loop_keeps_NoDup (l : list string) (app : MainApp) :
  NoDup (PyDict.keys (running_processes app)) ->
  NoDup (PyDict.keys (running_processes (final (for_each l step app)))).
Proof.
  revert app; induction l as [|x l IH]; intros app Hnd; [assumption|].
  rewrite for_each_cons.
  destruct (value (step x app)); cbn [final];
    [apply IH|]; now apply step_keeps_NoDup.
Qed.

Lemma loop_keys_subset (l : list string) (url : string) (app : MainApp) :
  In url (PyDict.keys (running_processes (final (for_each l step app)))) ->
  In url (PyDict.keys (running_processes app)).
Proof.
  revert app; induction l as [|x l IH]; intros app; [auto|].
  rewrite for_each_cons.
  destruct (value (step x app)); cbn [final]; intros H.
  - apply IH in H. now apply step_keys_subset in H.
  - now apply step_keys_subset in H.
Qed.

Lemma loop_answers (l : list string) (app : MainApp) :
  NoDup l ->
  NoDup (PyDict.keys (running_processes app)) ->
  value (for_each l step app) = Ok tt ->
  forall url, In url l ->
    answers is_expired cc (final (for_each l step app)) url.
Proof.
  revert app; induction l as [|x l IH]; intros app Hl Hnd Hv url Hin;
    [destruct Hin|].
  inversion Hl as [|? ? Hx Hl']; subst.
  rewrite for_each_cons in *.
  destruct (value (step x app)) as [[]|e] eqn:Ev; cbn [value final] in *;
    [|discriminate].
  destruct Hin as [<- | Hin].
  - destruct (loop_frame l x (final (step x app)) Hx) as [F1 F2].
    pose proof (step_answers x app Hnd Ev) as Ha.
    intros w Hw. rewrite F1 in Hw. rewrite F2. now apply Ha.
  - apply IH; auto. now apply step_keeps_NoDup.
Qed.

End FirstLoopSettles.

Lemma contains_keys {V} (k : string) (d : PyDict.t V) :
  PyDict.contains k d = true <-> In k (PyDict.keys d).
Proof.
  unfold PyDict.contains. destruct (PyDict.get k d) eqn:E.
  - split; [intros _ | reflexivity]. eapply get_Some_keys; eassumption.
  - apply get_None_keys in E. split; [discriminate | contradiction].
Qed.

Lemma In_set {V} (k k' : string) (v v' : V) (d : PyDict.t V) :
  In (k', v') (PyDict.set k v d) -> (k' = k /\ v' = v) \/ In (k', v') d.
Proof.
  induction d as [|[k0 v0] d IH]; simpl.
  - intros [E | []]. injection E as <- <-. auto.
  - destruct (k =? k0)%string eqn:E; simpl.
    + apply String.eqb_eq in E; subst k0.
      intros [H | H]; [injection H as <- <-; auto | auto].
    + intros [H | H]; [auto|]. destruct (IH H); auto.
Qed.

Lemma current_configs_from_In (configurations : list AppConfig)
    (acc cc : PyDict.t AppConfig) (u : string) (c : AppConfig) :
  current_configs_from configurations acc = Ok cc ->
  In (u, c) cc ->
  In (u, c) acc \/ In c configurations.
Proof.
  revert acc; induction configurations as [|c0 rest IH]; intros acc; simpl.
  - intros E; injection E as <-; auto.
  - destruct (video_url c0) as [k|]; simpl; [|discriminate].
    intros E Hin. destruct (IH _ E Hin) as [H | H]; [|auto].
    apply In_set in H as [[_ ->] | H]; auto.
Qed.

Lemma current_configs_from_NoDup (configurations : list AppConfig)
    (acc cc : PyDict.t AppConfig) :
  NoDup (PyDict.keys acc) ->
  current_configs_from configurations acc = Ok cc ->
  NoDup (PyDict.keys cc).
Proof.
  revert acc; induction configurations as [|c0 rest IH]; intros acc Hnd; simpl.
  - intros E; injection E as <-; assumption.
  - destruct (video_url c0) as [k|]; simpl; [|discriminate].
    apply IH. now apply NoDup_keys_set.
Qed.

Lemma current_keys_from_sites (configurations : list AppConfig) (ks : list string) :
  current_keys_from configurations = Ok ks ->
  forall c, In c configurations -> site c <> None.
Proof.
  revert ks; induction configurations as [|c0 rest IH]; intros ks E c Hin;
    [destruct Hin|].
  simpl in E. destruct (site c0) as [s|] eqn:Es; simpl in E; [|discriminate].
  destruct (current_keys_from rest) as [ks'|]; [|discriminate].
  destruct Hin as [<- | Hin]; [congruence | eapply IH; eauto].
Qed.

Section SecondLoopSettles.
Variable is_expired : option string -> bool.
Variable cc : PyDict.t AppConfig.
Hypothesis cc_site : forall url c, PyDict.get url cc = Some c -> site c <> None.
Hypothesis cc_NoDup : NoDup (PyDict.keys cc).

Lemma start_new_answers (url : string) (c : AppConfig) (app : MainApp) :
  In (url, c) cc ->
  value (start_new is_expired (url, c) app) = Ok tt ->
  (forall u, answers is_expired cc app u) ->
  forall u, answers is_expired cc (final (start_new is_expired (url, c) app)) u.
Proof.
  intros Hin. rewrite start_new_run.
  destruct (is_expired (get_none (expire_date c))) eqn:Ee; [auto|].
  destruct (PyDict.contains url (running_processes app)); [auto|].
  cbv zeta. destruct (compute_config_hash c) as [h|e] eqn:Eh; [|discriminate].
  intros _ Ha u w. unfold put_worker.
  cbn [final running_processes current_config_hashes].
  destruct (string_dec u url) as [-> | N].
  - rewrite !get_set_same. intros Hw. injection Hw as <-. cbn [config].
    pose proof (get_In_NoDup url c cc cc_NoDup Hin) as Ec.
    split; [now apply (cc_site url)|]. exists c, h. auto.
  - rewrite !get_set_other by assumption. now apply Ha.
Qed.

Lemma start_new_keys_mono (item : string * AppConfig) (app : MainApp) (u : string) :
  In u (PyDict.keys (running_processes app)) ->
  In u (PyDict.keys (running_processes (final (start_new is_expired item app)))).
Proof.
  destruct item as [url c]. rewrite start_new_run.
  destruct (is_expired _); [auto|].
  destruct (PyDict.contains url _); [auto|].
  cbv zeta. destruct (compute_config_hash c); simpl; intros H;
    apply keys_set; auto.
Qed.

Lemma start_loop_keys_mono (items : list (string * AppConfig)) (app : MainApp)
    (u : string) :
  In u (PyDict.keys (running_processes app)) ->
  In u (PyDict.keys (running_processes
                       (final (for_each items (start_new is_expired) app)))).
Proof.
  revert app; induction items as [|item items IH]; intros app H; [assumption|].
  rewrite for_each_cons.
  destruct (value (start_new is_expired item app)); cbn [final];
    [apply IH|]; now apply start_new_keys_mono.
Qed.

(** After its iteration, a record that is not expired has its worker. *)
Lemma start_new_running (url : string) (c : AppConfig) (app : MainApp) :
  is_expired (get_none (expire_date c)) = false ->
  In url (PyDict.keys (running_processes
                         (final (start_new is_expired (url, c) app)))).
Proof.
  intros Ee. rewrite start_new_run, Ee.
  destruct (PyDict.contains url (running_processes app)) eqn:Ec.
  - now apply contains_keys.
  - cbv zeta. destruct (compute_config_hash c); simpl; apply keys_set; auto.
Qed.

Lemma start_loop_settles (items : list (string * AppConfig)) (app : MainApp) :
  (forall item, In item items -> In item cc) ->
  value (for_each items (start_new is_expired) app) = Ok tt ->
  (forall u, answers is_expired cc app u) ->
  (forall u, answers is_expired cc
               (final (for_each items (start_new is_expired) app)) u)
  /\ (forall url c, In (url, c) items ->
        is_expired (get_none (expire_date c)) = false ->
        PyDict.contains url
          (running_processes (final (for_each items (start_new is_expired) app)))
        = true).
Proof.
  revert app; induction items as [|[url c] items IH]; intros app Hsub Hv Ha.
  - split; [assumption | intros ? ? []].
  - rewrite for_each_cons in *.
    destruct (value (start_new is_expired (url, c) app)) as [[]|e] eqn:Ev;
      cbn [value final] in *; [|discriminate].
    destruct (IH (final (start_new is_expired (url, c) app))) as [IH1 IH2]; auto.
    { intros item Hi. apply Hsub. now right. }
    { apply start_new_answers; auto. apply Hsub. now left. }
    split; [assumption|].
    intros url' c' [E | Hin] Hne.
    + injection E as <- <-. apply contains_keys.
      apply start_loop_keys_mono. now apply start_new_running.
    + now apply (IH2 url' c').
Qed.

End SecondLoopSettles.

Lemma reload_settles (is_expired : option string -> bool)
    (configurations : list AppConfig) (app : MainApp) :
  well_formed app ->
  value (reload_configurations is_expired configurations app) = Ok tt ->
  settled is_expired configurations
    (final (reload_configurations is_expired configurations app)).
Proof.
  intros [Hnd Hh]. rewrite reload_configurations_run.
  destruct (current_configs_from configurations []) as [cc|] eqn:Ecc;
    [|discriminate].
  destruct (current_keys_from configurations) as [ks|] eqn:Eks; [|discriminate].
  cbv zeta.
  assert (Hcc : NoDup (PyDict.keys cc)).
  { eapply current_configs_from_NoDup; [|eassumption]. constructor. }
  assert (Hsite : forall url c, PyDict.get url cc = Some c -> site c <> None).
  { intros url c Hg.
    assert (Hin : In (url, c) cc).
    { clear - Hg. induction cc as [|[k0 v0] d IH]; simpl in *; [discriminate|].
      destruct (url =? k0)%string eqn:E; [|auto].
      apply String.eqb_eq in E; subst. injection Hg as ->. now left. }
    destruct (current_configs_from_In _ _ _ _ _ Ecc Hin) as [[] | Hc].
    eapply current_keys_from_sites; eassumption. }
  set (l := PyDict.keys (running_processes app)).
  set (o1 := for_each l (stop_removed_or_updated is_expired cc ks) app).
  destruct (value o1) as [[]|e] eqn:Ev1; [|discriminate].
  cbn [value final]. intros Ev2.
  assert (Ha1 : forall u, answers is_expired cc (final o1) u).
  { intros u w Hw.
    assert (Hin : In u l).
    { apply (loop_keys_subset is_expired cc ks l u app).
      eapply get_Some_keys; eassumption. }
    exact (loop_answers is_expired cc ks Hsite l app Hnd Hnd Ev1 u Hin w Hw). }
  destruct (start_loop_settles is_expired cc Hsite Hcc cc (final o1)
              (fun item H => H) Ev2 Ha1) as [A B].
  exists cc, ks. split; [exact Ecc|]. split; [exact Eks|].
  split; [exact A | exact B].
Qed.

(** ** Further properties of the fingerprint and of the pass *)

(** X1. [compute_config_hash] returns a fingerprint exactly when the
    record has the five keys video_url, model_key, site, notifications
    and detect_with_server; otherwise it raises [KeyError] for the first
    of them, in that order, that is absent. The keys stream_name,
    expire_date, line_token and language are never required, so a record
    in the old format, with line_token and language but no
    notifications key, has no fingerprint. *)
Theorem compute_config_hash_keys (c : AppConfig) :
  ((exists h, compute_config_hash c = Ok h) <->
   video_url c <> None /\ model_key c <> None /\ site c <> None
   /\ notifications c <> None /\ detect_with_server c <> None)
  /\ (forall k, compute_config_hash c = Raise (KeyError k) ->
        (k = "video_url" /\ video_url c = None)
        \/ (k = "model_key" /\ video_url c <> None /\ model_key c = None)
        \/ (k = "site" /\ video_url c <> None /\ model_key c <> None
            /\ site c = None)
        \/ (k = "notifications" /\ video_url c <> None /\ model_key c <> None
            /\ site c <> None /\ notifications c = None)
        \/ (k = "detect_with_server" /\ video_url c <> None
            /\ model_key c <> None /\ site c <> None
            /\ notifications c <> None /\ detect_with_server c = None)).
Proof.
  unfold compute_config_hash, relevant_config.
  destruct (video_url c) as [u|], (model_key c) as [m|], (site c) as [s|],
    (notifications c) as [n|], (detect_with_server c) as [d|]; simpl;
    (split;
     [ split;
       [ intros (h & H); try discriminate; repeat split; discriminate
       | intros (A & B & C & D & E); try congruence; eauto ]
     | intros k H; try discriminate; injection H as <-;
       repeat (try (left; repeat split; (reflexivity || discriminate)); right);
       repeat split; (reflexivity || discriminate) ]).
Qed.

(** X2. A pass that returns, from a state whose two dictionaries go
    together, leaves the state the file asks for: the running URLs are
    exactly the URLs whose record in the file (the last one with that
    URL) is not expired, the fingerprint recorded for each running URL is
    that of its record, and the two dictionaries still go together. *)
Theorem reload_configurations_reaches_file
    (is_expired : option string -> bool) (configurations : list AppConfig)
    (app : MainApp) :
  well_formed app ->
  value (reload_configurations is_expired configurations app) = Ok tt ->
  let app' := final (reload_configurations is_expired configurations app) in
  exists cc,
    current_configs_from configurations [] = Ok cc
    /\ (forall url,
          In url (PyDict.keys (running_processes app')) <->
          exists c, PyDict.get url cc = Some c
                    /\ is_expired (get_none (expire_date c)) = false)
    /\ (forall url c,
          PyDict.get url cc = Some c ->
          is_expired (get_none (expire_date c)) = false ->
          exists h, compute_config_hash c = Ok h
                    /\ PyDict.get url (current_config_hashes app') = Some h)
    /\ well_formed app'.
Proof.
  intros Hw Hv app'.
  pose proof (reload_configurations_well_formed is_expired configurations app Hw Hv)
    as Hw'.
  destruct (reload_settles is_expired configurations app Hw Hv)
    as (cc & ks & Ecc & Eks & Ha & Hr).
  fold app' in Ha, Hr, Hw'.
  assert (Hcc : NoDup (PyDict.keys cc)).
  { eapply current_configs_from_NoDup; [|eassumption]. constructor. }
  assert (Hget : forall url c, PyDict.get url cc = Some c -> In (url, c) cc).
  { intros url c. clear. induction cc as [|[k0 v0] d IH]; simpl; [discriminate|].
    destruct (url =? k0)%string eqn:E; [|auto].
    apply String.eqb_eq in E; subst. intros H; injection H as ->. now left. }
  assert (Hrun : forall url c, PyDict.get url cc = Some c ->
            is_expired (get_none (expire_date c)) = false ->
            In url (PyDict.keys (running_processes app'))).
  { intros url c Hg He. apply contains_keys. apply (Hr url c); auto. }
  exists cc. split; [exact Ecc|]. split; [|split; [|exact Hw']].
  - intros url. split.
    + intros Hin.
      destruct (PyDict.get url (running_processes app')) as [w|] eqn:Eg.
      * destruct (Ha url w Eg) as (_ & c & h & Ec & Ee & _). eauto.
      * apply get_None_keys in Eg. contradiction.
    + intros (c & Ec & Ee). eapply Hrun; eassumption.
  - intros url c Ec Ee.
    pose proof (Hrun url c Ec Ee) as Hin.
    destruct (PyDict.get url (running_processes app')) as [w|] eqn:Eg.
    + destruct (Ha url w Eg) as (_ & c' & h & Ec' & _ & Eh & Er).
      rewrite Ec in Ec'. injection Ec' as <-. eauto.
    + apply get_None_keys in Eg. contradiction.
Qed.

Lemma reload_configurations_reaches_file_witness :
  exists cc,
    current_configs_from [Sample.cam1; Sample.cam2_old] [] = Ok cc
    /\ (forall url,
          In url (PyDict.keys (running_processes
                    (final (reload_configurations Sample.expired_2024
                              [Sample.cam1; Sample.cam2_old]
                              SampleState.two_cameras)))) <->
          exists c, PyDict.get url cc = Some c
                    /\ Sample.expired_2024 (get_none (expire_date c)) = false)
    /\ (forall url c,
          PyDict.get url cc = Some c ->
          Sample.expired_2024 (get_none (expire_date c)) = false ->
          exists h, compute_config_hash c = Ok h
                    /\ PyDict.get url (current_config_hashes
                          (final (reload_configurations Sample.expired_2024
                                    [Sample.cam1; Sample.cam2_old]
                                    SampleState.two_cameras))) = Some h)
    /\ well_formed (final (reload_configurations Sample.expired_2024
                             [Sample.cam1; Sample.cam2_old]
                             SampleState.two_cameras)).
Proof.
  apply (reload_configurations_reaches_file Sample.expired_2024
           [Sample.cam1; Sample.cam2_old] SampleState.two_cameras).
  - split.
    + repeat constructor; simpl; intuition discriminate.
    + simpl. intros url [<- | [<- | []]]; discriminate.
  - reflexivity.
Defined.

(** X3. Reconciliation is idempotent: after a pass that returns, a
    second pass over the same file returns too, changes nothing in the
    state and issues log lines only; it stops no worker, starts none
    and deletes no key. *)
Theorem reload_configurations_idempotent
    (is_expired : option string -> bool) (configurations : list AppConfig)
    (app : MainApp) :
  well_formed app ->
  value (reload_configurations is_expired configurations app) = Ok tt ->
  let app' := final (reload_configurations is_expired configurations app) in
  let again := reload_configurations is_expired configurations app' in
  value again = Ok tt /\ final again = app' /\ only_logs (trace again).
Proof.
  intros Hw Hv app' again.
  destruct (settled_noop is_expired configurations app'
              (reload_settles is_expired configurations app Hw Hv))
    as (t & E & L).
  subst again. rewrite E. auto.
Qed.

Lemma reload_configurations_idempotent_witness :
  value (reload_configurations Sample.expired_2024 [Sample.cam1; Sample.cam2]
           SampleState.two_cameras) = Ok tt
  /\ final (reload_configurations Sample.expired_2024 [Sample.cam1; Sample.cam2]
              SampleState.two_cameras) = SampleState.two_cameras
  /\ only_logs (trace (reload_configurations Sample.expired_2024
                         [Sample.cam1; Sample.cam2] SampleState.two_cameras)).
Proof.
  exact (reload_configurations_idempotent Sample.expired_2024
           [Sample.cam1; Sample.cam2] initial_app well_formed_initial eq_refl).
Defined.

Lemma get_Some_In {V} (k : string) (v : V) (d : PyDict.t V) :
  PyDict.get k d = Some v -> In (k, v) d.
Proof.
  induction d as [|[k0 v0] d IH]; simpl; [discriminate|].
  destruct (k =? k0)%string eqn:E; [|auto].
  apply String.eqb_eq in E; subst. intros H; injection H as ->. now left.
Qed.

Lemma set_map_values {V W} (f : V -> W) (k : string) (v : V) (d : PyDict.t V) :
  PyDict.set k (f v) (map_values f d) = map_values f (PyDict.set k v d).
Proof.
  induction d as [|[k0 v0] d IH]; simpl; [reflexivity|].
  destruct (k =? k0)%string; simpl; [reflexivity | now rewrite IH].
Qed.

Lemma get_map_values {V W} (f : V -> W) (k : string) (d : PyDict.t V) :
  PyDict.get k (map_values f d) = option_map f (PyDict.get k d).
Proof.
  induction d as [|[k0 v0] d IH]; simpl; [reflexivity|].
  destruct (k =? k0)%string; [reflexivity | exact IH].
Qed.

Lemma current_configs_from_map (f : AppConfig -> AppConfig)
    (configurations : list AppConfig) (acc : PyDict.t AppConfig) :
  (forall c, video_url (f c) = video_url c) ->
  current_configs_from (map f configurations) (map_values f acc)
  = match current_configs_from configurations acc with
    | Ok cc => Ok (map_values f cc)
    | Raise e => Raise e
    end.
Proof.
  intros Hf. revert acc; induction configurations as [|c rest IH]; intros acc;
    simpl; [reflexivity|].
  rewrite Hf. destruct (video_url c) as [u|]; simpl; [|reflexivity].
  now rewrite set_map_values, IH.
Qed.

Lemma current_keys_from_map (f : AppConfig -> AppConfig)
    (configurations : list AppConfig) :
  (forall c, site (f c) = site c) ->
  (forall c, stream_label (f c) = stream_label c) ->
  current_keys_from (map f configurations) = current_keys_from configurations.
Proof.
  intros Hs Hl. induction configurations as [|c rest IH]; simpl; [reflexivity|].
  now rewrite Hs, Hl, IH.
Qed.

Lemma settled_redated (is_expired : option string -> bool)
    (new_date : AppConfig -> option (option string))
    (configurations : list AppConfig) (app : MainApp) :
  settled is_expired configurations app ->
  (forall c, In c configurations ->
     is_expired (get_none (new_date c)) = is_expired (get_none (expire_date c))) ->
  settled is_expired (map (redated new_date) configurations) app.
Proof.
  intros (cc & ks & Ecc & Eks & Ha & Hr) Hsame.
  assert (Hin : forall url c, In (url, c) cc -> In c configurations).
  { intros url c H.
    destruct (current_configs_from_In _ _ _ _ _ Ecc H) as [[] | Hc]. exact Hc. }
  exists (map_values (redated new_date) cc), ks.
  split; [|split; [|split]].
  - change (@nil (string * AppConfig))
      with (map_values (redated new_date) (@nil (string * AppConfig))).
    rewrite current_configs_from_map by reflexivity. now rewrite Ecc.
  - rewrite current_keys_from_map by reflexivity. exact Eks.
  - intros url w Hw. destruct (Ha url w Hw) as (Hs & c & h & Ec & Ee & Eh & Er).
    split; [exact Hs|]. exists (redated new_date c), h.
    split; [now rewrite get_map_values, Ec|].
    split; [|split; [|exact Er]].
    + unfold redated. cbn [expire_date with_expire_date].
      rewrite Hsame; [exact Ee|]. eapply Hin, get_Some_In; eassumption.
    + unfold redated. now rewrite compute_config_hash_expire.
  - intros url c' Hc' He'.
    apply in_map_iff in Hc' as ([u c] & E & Hc). simpl in E.
    injection E as <- <-. apply (Hr u c Hc).
    rewrite <- (Hsame c (Hin u c Hc)). exact He'.
Qed.

(** X4. When the workers already are what the file asks for, editing
    only expiry dates in the file, in a way that makes no record expire
    or come back, makes the next pass change nothing: it returns, leaves
    the state as it is and issues log lines only, so no worker is
    restarted for a new expiry date. *)
Theorem reload_configurations_expiry_edit
    (is_expired : option string -> bool)
    (new_date : AppConfig -> option (option string))
    (configurations : list AppConfig) (app : MainApp) :
  settled is_expired configurations app ->
  (forall c, In c configurations ->
     is_expired (get_none (new_date c)) = is_expired (get_none (expire_date c))) ->
  let o := reload_configurations is_expired
             (map (redated new_date) configurations) app in
  value o = Ok tt /\ final o = app /\ only_logs (trace o).
Proof.
  intros Hs Hsame o.
  destruct (settled_noop is_expired _ app
              (settled_redated is_expired new_date configurations app Hs Hsame))
    as (t & E & L).
  subst o. rewrite E. auto.
Qed.

Lemma reload_configurations_expiry_edit_witness :
  let o := reload_configurations Sample.expired_2024
             (map (redated (fun _ => Some (Some "2031-01-01T00:00:00")))
                [Sample.cam1; Sample.cam2])
             SampleState.two_cameras in
  value o = Ok tt /\ final o = SampleState.two_cameras /\ only_logs (trace o).
Proof.
  apply (reload_configurations_expiry_edit Sample.expired_2024
           (fun _ => Some (Some "2031-01-01T00:00:00"))
           [Sample.cam1; Sample.cam2] SampleState.two_cameras).
  - exact (reload_settles Sample.expired_2024 [Sample.cam1; Sample.cam2]
             initial_app well_formed_initial eq_refl).
  - simpl. intros c [<- | [<- | []]]; reflexivity.
Defined.

(** ** An empty file *)

Lemma stop_all_loop (is_expired : option string -> bool) (d : PyDict.t Worker)
    (hashes : PyDict.t string) (n : nat) :
  NoDup (PyDict.keys d) ->
  (forall url, In url (PyDict.keys d) -> PyDict.get url hashes <> None) ->
  (forall url w, In (url, w) d -> site (config w) <> None) ->
  let o := for_each (PyDict.keys d) (stop_removed_or_updated is_expired [] [])
             (mkMainApp d hashes n) in
  value o = Ok tt
  /\ running_processes (final o) = []
  /\ processes_created (final o) = n
  /\ lifecycle (trace o) = map (fun e => Terminate (process (snd e))) d
  /\ forall url w s, In (url, w) d -> site (config w) = Some s ->
       In (RedisDelete (site_stream s (stream_label (config w)))) (trace o).
Proof.
  revert hashes; induction d as [|[url w] d IH]; intros hashes Hnd Hh Hs; cbv zeta.
  - repeat split. intros ? ? ? [].
  - inversion Hnd as [|? ? Hn Hnd']; subst.
    change (PyDict.keys ((url, w) :: d)) with (url :: PyDict.keys d).
    rewrite for_each_cons, stop_removed_or_updated_run.
    cbn [running_processes current_config_hashes PyDict.get].
    rewrite String.eqb_refl.
    destruct (site (config w)) as [s|] eqn:Es;
      [|exfalso; apply (Hs url w); [now left | assumption]].
    cbv zeta. cbn [removed_or_expired].
    destruct (PyDict.get url hashes) as [h|] eqn:Eh;
      [|exfalso; apply (Hh url); [now left | assumption]].
    unfold drop_worker.
    cbn [value final trace running_processes current_config_hashes
         processes_created PyDict.remove].
    rewrite String.eqb_refl.
    destruct (IH (PyDict.remove url hashes) Hnd') as (A & B & C & D & E).
    { intros url' Hin.
      assert (N : url' <> url) by (intros ->; contradiction).
      rewrite get_remove_other by assumption. apply Hh. now right. }
    { intros url' w' Hin. apply (Hs url' w'). now right. }
    split; [exact A|]. split; [exact B|]. split; [exact C|]. split.
    + rewrite !lifecycle_app, lifecycle_deletion, D. reflexivity.
    + intros url' w' s' [Eq | Hin] Es'.
      * injection Eq as <- <-. rewrite Es in Es'. injection Es' as <-.
        apply in_or_app; left. apply in_or_app; right.
        apply deletion_In. split; reflexivity.
      * apply in_or_app; right. now apply (E url' w' s').
Qed.

(** X5. A pass over an empty file, from a state whose two dictionaries
    go together and whose stored records have a site, returns, stops
    every running worker in the order of the dictionary, starts none,
    leaves no worker registered and deletes the buffer key of each
    worker it stopped. *)
Theorem reload_configurations_empty_file
    (is_expired : option string -> bool) (app : MainApp) :
  well_formed app ->
  (forall url w, In (url, w) (running_processes app) -> site (config w) <> None) ->
  let o := reload_configurations is_expired [] app in
  value o = Ok tt
  /\ running_processes (final o) = []
  /\ lifecycle (trace o)
     = map (fun e => Terminate (process (snd e))) (running_processes app)
  /\ forall url w s, In (url, w) (running_processes app) ->
       site (config w) = Some s ->
       In (RedisDelete (site_stream s (stream_label (config w)))) (trace o).
Proof.
  intros [Hnd Hh] Hs o. subst o.
  rewrite reload_configurations_run.
  cbn [current_configs_from current_keys_from]. cbv zeta.
  destruct app as [d hashes n]. cbn [running_processes current_config_hashes] in *.
  destruct (stop_all_loop is_expired d hashes n Hnd Hh Hs) as (A & B & C & D & E).
  rewrite A. cbn [for_each ret value final trace].
  rewrite app_nil_r. auto.
Qed.

Lemma reload_configurations_empty_file_witness :
  let o := reload_configurations Sample.expired_2024 [] SampleState.two_cameras in
  value o = Ok tt
  /\ running_processes (final o) = []
  /\ lifecycle (trace o)
     = map (fun e => Terminate (process (snd e)))
         (running_processes SampleState.two_cameras)
  /\ forall url w s, In (url, w) (running_processes SampleState.two_cameras) ->
       site (config w) = Some s ->
       In (RedisDelete (site_stream s (stream_label (config w)))) (trace o).
Proof.
  apply (reload_configurations_empty_file Sample.expired_2024
           SampleState.two_cameras).
  - split.
    + repeat constructor; simpl; intuition discriminate.
    + simpl. intros url [<- | [<- | []]]; discriminate.
  - simpl. intros url w [E | [E | []]]; injection E as <- <-; discriminate.
Defined.

(** ** A record with no fingerprint *)

Lemma current_configs_from_head (rest : list AppConfig) (url : string)
    (c : AppConfig) (acc : PyDict.t AppConfig) :
  (forall r, In r rest -> video_url r <> None /\ video_url r <> Some url) ->
  exists tail, current_configs_from rest ((url, c) :: acc) = Ok ((url, c) :: tail).
Proof.
  revert acc; induction rest as [|r rest IH]; intros acc H.
  - exists acc. reflexivity.
  - destruct (H r (or_introl eq_refl)) as [H1 H2].
    cbn [current_configs_from].
    destruct (video_url r) as [k|]; [|contradiction]. cbn [subscript PyDict.set].
    assert (N : (k =? url)%string = false) by (apply String.eqb_neq; congruence).
    rewrite N. apply IH. intros r' Hr'. apply H. now right.
Qed.

Lemma current_keys_from_Ok (configurations : list AppConfig) :
  (forall r, In r configurations -> site r <> None) ->
  exists ks, current_keys_from configurations = Ok ks.
Proof.
  intros H. destruct (current_keys_from_result configurations) as [E | E];
    [exact E|].
  exfalso. induction configurations as [|r rest IH]; [discriminate|].
  simpl in E. destruct (site r) as [s|] eqn:Es;
    [|apply (H r); [now left | assumption]].
  simpl in E. destruct (current_keys_from rest) eqn:Er; [discriminate|].
  apply IH; [|reflexivity || (injection E as ->; reflexivity)].
  intros r' Hr'. apply H. now right.
Qed.

(** X6. A record that is new, not expired and has a site and a video
    URL but no fingerprint (a key of [compute_config_hash] is absent, as
    in the old format with line_token and language only) is not skipped
    by a pass that finds no worker running: heading the file, its worker
    is started and registered, then the exception of the fingerprint ends
    the pass. No fingerprint is recorded for the URL, and the records
    after it are not reached. *)
Theorem reload_configurations_starts_then_raises
    (is_expired : option string -> bool) (c : AppConfig)
    (rest : list AppConfig) (url : string) (s : option string) (e : exn)
    (app : MainApp) :
  video_url c = Some url ->
  site c = Some s ->
  is_expired (get_none (expire_date c)) = false ->
  compute_config_hash c = Raise e ->
  running_processes app = [] ->
  (forall r, In r rest ->
     video_url r <> None /\ video_url r <> Some url /\ site r <> None) ->
  let o := reload_configurations is_expired (c :: rest) app in
  value o = Raise e
  /\ trace o = [LogInfo ("Launch new workflow: " ++ url);
                Spawn (processes_created app) c]
  /\ running_processes (final o) = [(url, mkWorker (processes_created app) c)]
  /\ current_config_hashes (final o) = current_config_hashes app.
Proof.
  intros Hu Hs He Hh Hrun Hrest o. subst o.
  rewrite reload_configurations_run.
  cbn [current_configs_from]. rewrite Hu. cbn [subscript PyDict.set].
  destruct (current_configs_from_head rest url c [])
    as (tail & ->).
  { intros r Hr. destruct (Hrest r Hr) as (A & B & _). auto. }
  destruct (current_keys_from_Ok (c :: rest)) as (ks & ->).
  { intros r [<- | Hr]; [congruence|]. now destruct (Hrest r Hr) as (_ & _ & C). }
  cbv zeta. rewrite Hrun. cbn [PyDict.keys map].
  rewrite (for_each_noop (@nil string)) by (intros ? []).
  cbn [value final trace].
  rewrite for_each_cons, start_new_run, He.
  unfold PyDict.contains. rewrite Hrun. cbn [PyDict.get].
  cbv zeta. rewrite Hh. unfold put_running. rewrite Hrun.
  cbn [value final trace running_processes current_config_hashes PyDict.set
       List.app].
  auto.
Qed.

Lemma reload_configurations_starts_then_raises_witness :
  let o := reload_configurations Sample.expired_2024
             [SampleLegacy.old_format; Sample.cam1] initial_app in
  value o = Raise (KeyError "notifications")
  /\ trace o = [LogInfo ("Launch new workflow: " ++ "rtsp://cam/5");
                Spawn (processes_created initial_app) SampleLegacy.old_format]
  /\ running_processes (final o)
     = [("rtsp://cam/5",
         mkWorker (processes_created initial_app) SampleLegacy.old_format)]
  /\ current_config_hashes (final o) = current_config_hashes initial_app.
Proof.
  apply (reload_configurations_starts_then_raises Sample.expired_2024
           SampleLegacy.old_format [Sample.cam1] "rtsp://cam/5" (Some "siteC")
           (KeyError "notifications") initial_app);
    try reflexivity.
  simpl. intros r [<- | []]. repeat split; discriminate.
Defined.

(** ** Further properties of the worker *)

Section TimestampOrder.
Local Open Scope Q_scope.

Lemma int_of_float_ceiling (x : Q) : x <= 0 -> int_of_float x = Qceiling x.
Proof.
  destruct x as [n d]. unfold Qle, int_of_float, Qceiling, Qfloor, Qopp. simpl.
  intros H. rewrite <- (Z.opp_involutive n) at 1.
  rewrite Z.quot_opp_l by lia. f_equal. apply Z.quot_div_nonneg; lia.
Qed.

Lemma int_of_float_inject (z : Z) : int_of_float (inject_Z z) = z.
Proof. unfold int_of_float, inject_Z. simpl. apply Z.quot_1_r. Qed.

(** [int] keeps the order of floats. *)
Lemma int_of_float_le (x y : Q) : x <= y -> (int_of_float x <= int_of_float y)%Z.
Proof.
  intros H. destruct (Qlt_le_dec x 0) as [Hx | Hx];
    destruct (Qlt_le_dec y 0) as [Hy | Hy].
  - rewrite !int_of_float_ceiling by lra. now apply Qceiling_resp_le.
  - rewrite int_of_float_ceiling by lra. rewrite int_of_float_floor by assumption.
    assert (A : (Qceiling x <= Qceiling 0)%Z) by (apply Qceiling_resp_le; lra).
    assert (B : (Qfloor 0 <= Qfloor y)%Z) by (apply Qfloor_resp_le; lra).
    change (Qceiling 0) with 0%Z in A. change (Qfloor 0) with 0%Z in B. lia.
  - lra.
  - rewrite !int_of_float_floor by lra. now apply Qfloor_resp_le.
Qed.

Lemma int_of_float_after_cooldown (ts : Q) (last : Z) :
  in_cooldown ts last = false -> (last + 300 <= int_of_float ts)%Z.
Proof.
  intros H. apply in_cooldown_false in H.
  rewrite <- (int_of_float_inject (last + 300)).
  apply int_of_float_le. rewrite inject_Z_plus.
  change (inject_Z 300) with 300. lra.
Qed.

End TimestampOrder.

Lemma stored_keys_app (t1 t2 : list worker_effect) :
  stored_keys (t1 ++ t2) = (stored_keys t1 ++ stored_keys t2)%list.
Proof.
  induction t1 as [|e t1 IH]; simpl; [reflexivity|].
  destruct e; simpl; now rewrite IH.
Qed.

Section WorkerFacts.
Variable translate_warning : list string -> string -> list string.
Variable send_notification : string -> string -> Z.

(** What one channel does, case by case. *)
Lemma notify_channel_cases (stream : string) (f : Frame) (st : NotifyState)
    (tok lang : string) :
  let r := notify_channel translate_warning send_notification stream f st
             (tok, lang) in
  (sends (snd r) = [] /\ stored_keys (snd r) = []
   /\ last_notification_time (fst r) = last_notification_time st)
  \/ (in_cooldown (timestamp f) (last_notification_time st) = false
      /\ exists m,
           sends (snd r) = [(m, tok)] /\ stored_keys (snd r) = []
           /\ ((send_notification m tok = 200%Z
                /\ last_notification_time (fst r) = int_of_float (timestamp f))
               \/ (send_notification m tok <> 200%Z
                   /\ last_notification_time (fst r)
                      = last_notification_time st))).
Proof.
  cbv zeta. unfold notify_channel.
  destruct (in_cooldown _ _) eqn:Ec; [left; auto|].
  destruct (compose_message _ _ _ _) as [m|]; [|left; auto].
  destruct (m =? "")%string; [left; auto|].
  right. split; [reflexivity|]. exists m.
  destruct (send_notification m tok =? 200)%Z eqn:E; cbn [fst snd sends stored_keys
    last_notification_time]; repeat split.
  - left. apply Z.eqb_eq in E. auto.
  - right. apply Z.eqb_neq in E. auto.
Qed.

(** In a pass, every send but the last one failed, and the timestamp
    either stays or moves to the frame's, 300 seconds or more ahead. *)
Lemma notify_channels_one_success (stream : string) (f : Frame)
    (l : list (string * string)) (st : NotifyState) :
  let r := notify_channels translate_warning send_notification stream f st l in
  Forall (fun p => ~ accepted send_notification p) (removelast (sends (snd r)))
  /\ stored_keys (snd r) = []
  /\ (last_notification_time (fst r) = last_notification_time st
      \/ (last_notification_time (fst r) = int_of_float (timestamp f)
          /\ (last_notification_time st + 300
              <= last_notification_time (fst r))%Z)).
Proof.
  revert st; induction l as [|[tok lang] l IH]; intros st; cbv zeta.
  - repeat split; [constructor | now left].
  - rewrite notify_channels_cons. cbn [fst snd].
    rewrite sends_app, stored_keys_app.
    set (r1 := notify_channel translate_warning send_notification stream f st
                 (tok, lang)).
    destruct (notify_channel_cases stream f st tok lang)
      as [(S & K & L) | (Hc & m & S & K & [[Hok L] | [Hko L]])];
      fold r1 in S, K, L; rewrite S, K; cbn [List.app].
    + destruct (IH (fst r1)) as (A & B & C). rewrite L in C. auto.
    + assert (Hs : in_cooldown (timestamp f) (last_notification_time (fst r1))
                   = true) by (rewrite L; apply in_cooldown_after_send).
      destruct (notify_channels_suppressed translate_warning send_notification
                  stream f (fst r1) l Hs) as [E1 E2].
      rewrite E1, E2, L. cbn [sends stored_keys removelast].
      repeat split; [constructor|]. right. split; [reflexivity|].
      now apply int_of_float_after_cooldown.
    + destruct (IH (fst r1)) as (A & B & C). rewrite L in C.
      split; [|auto].
      destruct (sends (snd (notify_channels translate_warning send_notification
                              stream f (fst r1) l))) as [|p ps] eqn:Es.
      * constructor.
      * change (removelast ((m, tok) :: p :: ps))
          with ((m, tok) :: removelast (p :: ps)).
        constructor; [exact Hko | exact A].
Qed.

End WorkerFacts.

Section FrameFacts.
Variable translate_warning : list string -> string -> list string.
Variable send_notification : string -> string -> Z.
Variable is_windows : bool.

Let frame := process_frame translate_warning send_notification is_windows.

Lemma process_frame_run (site : option string) (stream : string)
    (n : option (list (string * string))) (f : Frame) (last : Z)
    (cap : StreamCapture) :
  exists st t,
    (match n with
     | Some (ch :: l) =>
         notify_channels translate_warning send_notification stream f
           (mkNotifyState last None None None) (ch :: l) = (st, t)
     | _ => st = mkNotifyState last None None None
            /\ t = [WorkerLog "No notifications provided."]
     end)
    /\ fst (fst (frame site stream n f last cap)) = last_notification_time st
    /\ sends (snd (frame site stream n f last cap)) = sends t
    /\ stored_keys (snd (frame site stream n f last cap))
       = (stored_keys t
          ++ if is_windows then [] else [site_stream site stream])%list.
Proof.
  subst frame. unfold process_frame.
  destruct n as [[|ch l]|].
  - eexists _, _. split; [split; reflexivity|].
    cbn [fst snd]. rewrite sends_app, stored_keys_app.
    destruct is_windows; simpl; auto.
  - destruct (notify_channels _ _ _ _ _ _) as [st t].
    exists st, t. split; [reflexivity|].
    cbn [fst snd]. rewrite sends_app, stored_keys_app.
    destruct is_windows; simpl; rewrite ?app_nil_r; auto.
  - eexists _, _. split; [split; reflexivity|].
    cbn [fst snd]. rewrite sends_app, stored_keys_app.
    destruct is_windows; simpl; auto.
Qed.

(** X7. While one frame is processed, at most one send is accepted by
    the transport, and an accepted send is the last send of the frame:
    every send before the last one failed. *)
Theorem frame_one_accepted_send (site : option string) (stream : string)
    (n : option (list (string * string))) (f : Frame) (last : Z)
    (cap : StreamCapture) :
  Forall (fun p => ~ accepted send_notification p)
    (removelast (sends (snd (frame site stream n f last cap)))).
Proof.
  destruct (process_frame_run site stream n f last cap)
    as (st & t & Hn & _ & S & _).
  rewrite S. destruct n as [[|ch l]|].
  - destruct Hn as [_ ->]. constructor.
  - pose proof (notify_channels_one_success translate_warning send_notification
                  stream f (ch :: l) (mkNotifyState last None None None)) as H.
    cbv zeta in H. rewrite Hn in H. exact (proj1 H).
  - destruct Hn as [_ ->]. constructor.
Qed.

(** X8. The last-notification timestamp a frame hands to the next one
    either is the one it was given, or is the frame's own timestamp in
    whole seconds and lies 300 seconds or more after the one it was
    given: the recorded times of two accepted sends of a worker are never
    less than 300 seconds apart. *)
Theorem frame_last_notification_time (site : option string) (stream : string)
    (n : option (list (string * string))) (f : Frame) (last : Z)
    (cap : StreamCapture) :
  let last' := fst (fst (frame site stream n f last cap)) in
  last' = last
  \/ (last' = int_of_float (timestamp f) /\ (last + 300 <= last')%Z).
Proof.
  cbv zeta.
  destruct (process_frame_run site stream n f last cap)
    as (st & t & Hn & L & _ & _).
  rewrite L. destruct n as [[|ch l]|].
  - destruct Hn as [-> _]. now left.
  - pose proof (notify_channels_one_success translate_warning send_notification
                  stream f (ch :: l) (mkNotifyState last None None None)) as H.
    cbv zeta in H. rewrite Hn in H. exact (proj2 (proj2 H)).
  - destruct Hn as [-> _]. now left.
Qed.

Lemma process_frame_stored (site : option string) (stream : string)
    (n : option (list (string * string))) (f : Frame) (last : Z)
    (cap : StreamCapture) :
  stored_keys (snd (frame site stream n f last cap))
  = if is_windows then [] else [site_stream site stream].
Proof.
  destruct (process_frame_run site stream n f last cap)
    as (st & t & Hn & _ & _ & K).
  rewrite K. destruct n as [[|ch l]|].
  - now destruct Hn as [_ ->].
  - pose proof (notify_channels_one_success translate_warning send_notification
                  stream f (ch :: l) (mkNotifyState last None None None)) as H.
    cbv zeta in H. rewrite Hn in H. cbn [fst snd] in H.
    destruct H as (_ & -> & _). reflexivity.
  - now destruct Hn as [_ ->].
Qed.

Lemma capture_loop_stored (site : option string) (stream : string)
    (n : option (list (string * string))) (frames : list Frame) (last : Z)
    (cap : StreamCapture) :
  stored_keys
    (snd (capture_loop translate_warning send_notification is_windows
            site stream n frames last cap))
  = if is_windows then []
    else repeat (site_stream site stream) (length frames).
Proof.
  revert last cap; induction frames as [|f frames IH]; intros last cap.
  - destruct is_windows; reflexivity.
  - rewrite capture_loop_cons, stored_keys_app, IH.
    change (process_frame translate_warning send_notification is_windows)
      with frame.
    rewrite process_frame_stored.
    destruct is_windows; reflexivity.
Qed.

End FrameFacts.

(** X9. A worker stores every frame it processes exactly once, under
    the key site_stream of its record, and under no other key (on
    Windows it stores nothing). When the record has a site, that key is
    the one a pass computes for the worker's entry, so the key a pass
    deletes is the slot the worker filled. *)
Theorem worker_stores_each_frame
    (translate_warning : list string -> string -> list string)
    (send_notification : string -> string -> Z) (initial_interval : Z)
    (now : Q) (c : AppConfig) (frames : list Frame) :
  let key := site_stream (get_none (site c)) (stream_label c) in
  stored_keys (process_streams translate_warning send_notification false
                 initial_interval now c frames)
  = repeat key (length frames)
  /\ stored_keys (process_streams translate_warning send_notification true
                    initial_interval now c frames) = []
  /\ (forall s, site c = Some s -> key = site_stream s (stream_label c)).
Proof.
  cbv zeta. unfold process_streams, process_single_stream. split; [|split].
  - pose proof (capture_loop_stored translate_warning send_notification false
                  (get_none (site c)) (stream_label c)
                  (normalized_notifications c) frames
                  (initial_last_notification_time now)
                  (mkStreamCapture (get_default (video_url c) "")
                     initial_interval)) as H.
    destruct (capture_loop _ _ _ _ _ _ _ _ _) as [cap t]. cbn [snd] in *.
    rewrite !stored_keys_app, H. simpl. now rewrite !app_nil_r.
  - pose proof (capture_loop_stored translate_warning send_notification true
                  (get_none (site c)) (stream_label c)
                  (normalized_notifications c) frames
                  (initial_last_notification_time now)
                  (mkStreamCapture (get_default (video_url c) "")
                     initial_interval)) as H.
    destruct (capture_loop _ _ _ _ _ _ _ _ _) as [cap t]. cbn [snd] in *.
    rewrite !stored_keys_app, H. reflexivity.
  - intros s Hs. now rewrite Hs.
Qed.

(** ** The tracking generator *)

Section TrackingFacts.
Variables Image Ids Data : Type.
Implicit Types (t : Tracking.Turn Image Ids Data)
               (turns : list (Tracking.Turn Image Ids Data)).

(** X10. [generate_detections] yields one tuple per turn, in order and
    without a gap, for a first stretch of the turns: each turn of the
    stretch found the capture open and read a frame, and no turn of the
    stretch but the last had q pressed. The stretch ends before the
    first turn that finds the capture closed or fails to read, or with
    the first turn on which q is pressed, whose tuple is still
    yielded. *)
Theorem generate_detections_prefix turns :
  exists n,
    (n <= length turns)%nat
    /\ map Some (Tracking.generate_detections turns)
       = map yield_of (firstn n turns)
    /\ (forall t, In t (removelast (firstn n turns)) ->
          Tracking.pressed_q (Tracking.wait_key t) = false)
    /\ ((n < length turns)%nat ->
        (exists t, nth_error turns n = Some t /\ yield_of t = None)
        \/ (exists t, (0 < n)%nat /\ nth_error turns (n - 1) = Some t
                      /\ Tracking.pressed_q (Tracking.wait_key t) = true)).
Proof.
  induction turns as [|t turns IH].
  - exists 0%nat. split; [reflexivity|]. split; [reflexivity|].
    split; [intros ? [] | simpl; lia].
  - cbn [Tracking.generate_detections].
    destruct (Tracking.is_opened t) eqn:Eo; cbn [negb].
    + destruct (Tracking.read t) as [frame|] eqn:Er.
      * destruct (Tracking.pressed_q (Tracking.wait_key t)) eqn:Eq.
        -- exists 1%nat. cbn [firstn map removelast length].
           unfold yield_of at 1. rewrite Eo, Er.
           split; [lia|]. split; [reflexivity|]. split; [intros ? []|].
           intros _. right. exists t. split; [lia|]. split; [reflexivity|exact Eq].
        -- destruct IH as (n & Hn & Hm & Hq & Hstop).
           exists (S n). cbn [firstn map length].
           unfold yield_of at 1. rewrite Eo, Er, Hm.
           split; [lia|]. split; [reflexivity|]. split.
           ++ intros t'. destruct (firstn n turns) as [|t1 ts] eqn:Ef.
              ** intros [].
              ** change (removelast (t :: t1 :: ts))
                   with (t :: removelast (t1 :: ts)).
                 intros [<- | H]; [exact Eq | now apply Hq].
           ++ intros Hlt. destruct Hstop as [(t' & A & B) | (t' & A & B & C)];
                [lia | |].
              ** left. exists t'. auto.
              ** right. exists t'. split; [lia|]. split; [|exact C].
                 destruct n as [|n']; [lia|].
                 replace (S (S n') - 1)%nat with (S n') by lia.
                 replace (S n' - 1)%nat with n' in B by lia. exact B.
      * exists 0%nat. cbn [firstn map removelast length].
        split; [lia|]. split; [reflexivity|]. split; [intros ? []|].
        intros _. left. exists t. split; [reflexivity|].
        unfold yield_of. now rewrite Eo, Er.
    + exists 0%nat. cbn [firstn map removelast length].
      split; [lia|]. split; [reflexivity|]. split; [intros ? []|].
      intros _. left. exists t. split; [reflexivity|].
      unfold yield_of. now rewrite Eo.
Qed.

End TrackingFacts.

(** X11. The loop of [generate_detections] takes a key code for q
    exactly when its low byte is 113: bits above the low byte are
    ignored, and the code -1 that [cv2.waitKey] returns when no key is
    pressed never ends the loop. *)
Theorem pressed_q_low_byte (k : Z) :
  (Tracking.pressed_q k = true <-> (k mod 256 = 113)%Z)
  /\ Tracking.pressed_q (k * 256 + 113) = true
  /\ Tracking.pressed_q (-1) = false.
Proof.
  assert (E : forall a, Z.land a 255 = (a mod 256)%Z).
  { intros a. change 255%Z with (Z.ones 8). now rewrite Z.land_ones by lia. }
  unfold Tracking.pressed_q. rewrite !E. repeat split.
  - apply Z.eqb_eq.
  - apply Z.eqb_eq.
  - apply Z.eqb_eq. rewrite Z.add_comm, Z.mod_add by lia. reflexivity.
Qed.

(** ** Label files *)

(** The floats of a label file are scaled with their rounding: for a
    centre at 0.57 of a side of 100 pixels the product is just below 57
    and [int] gives 56. A NaN is unpacked like any float and raises at
    [int]. *)
Example box_of_rounds :
  BoundingBox.draw_line SampleLabels.float SampleLabels.rectangle_drawn 100 100
    SampleLabels.off_centre
  = inr (BoundingBox.mkRectangle 56 50 56 50)
  /\ BoundingBox.draw_line SampleLabels.float SampleLabels.rectangle_drawn 640 480
       SampleLabels.centred
     = inr (BoundingBox.mkRectangle 240 120 400 360)
  /\ BoundingBox.draw_line SampleLabels.float SampleLabels.rectangle_drawn 640 480
       SampleLabels.not_a_number
     = inl BoundingBox.NaNToInteger.
Proof. repeat split; vm_compute; reflexivity. Qed.

Example int_of_float64_cases :
  BoundingBox.int_of_float64 (SampleLabels.ratio (-7) 2) = inr (-3)%Z
  /\ BoundingBox.int_of_float64 (SampleLabels.ratio 7 2) = inr 3%Z
  /\ BoundingBox.int_of_float64 (BoundingBox.float_of_int 640) = inr 640%Z
  /\ BoundingBox.int_of_float64 (SampleLabels.ratio 1 0)
     = inl BoundingBox.InfinityToInteger
  /\ BoundingBox.int_of_float64 (SampleLabels.ratio 0 0)
     = inl BoundingBox.NaNToInteger.
Proof. repeat split; vm_compute; reflexivity. Qed.

Section LabelLines.
Variable float : string -> option PrimFloat.float.
Variable rectangle_drawn : BoundingBox.rectangle -> bool.

(** X13. A label line is accepted exactly when it has five tokens and
    [float] reads each of them; the five values are then the ones read,
    in order. A line with fewer than five tokens, all readable, raises
    the error for not enough values with the number of tokens it has. *)
Theorem unpack5_accepts (tokens : list string) :
  (forall a b c d e,
      BoundingBox.unpack5 float tokens = inr (a, b, c, d, e) <->
      exists t1 t2 t3 t4 t5,
        tokens = [t1; t2; t3; t4; t5]
        /\ float t1 = Some a /\ float t2 = Some b /\ float t3 = Some c
        /\ float t4 = Some d /\ float t5 = Some e)
  /\ ((length tokens < 5)%nat ->
      Forall (fun t => float t <> None) tokens ->
      BoundingBox.unpack5 float tokens
      = inl (BoundingBox.NotEnoughValues (length tokens))).
Proof.
  split.
  - intros a b c d e. unfold BoundingBox.unpack5, BoundingBox.next_float. split.
    + destruct tokens as [|t1 [|t2 [|t3 [|t4 [|t5 [|t6 r]]]]]];
        try discriminate;
        repeat match goal with
               | |- context [float ?t] => destruct (float t) eqn:?
               end; try discriminate.
      intros H; injection H as <- <- <- <- <-.
      exists t1, t2, t3, t4, t5. auto 10.
    + intros (t1 & t2 & t3 & t4 & t5 & -> & E1 & E2 & E3 & E4 & E5).
      now rewrite E1, E2, E3, E4, E5.
  - intros Hlen Hall. unfold BoundingBox.unpack5, BoundingBox.next_float.
    destruct tokens as [|t1 [|t2 [|t3 [|t4 [|t5 r]]]]]; simpl in Hlen; try lia;
      repeat match goal with
             | H : Forall _ (_ :: _) |- _ => inversion H; subst; clear H
             end;
      repeat match goal with
             | |- context [float ?t] => destruct (float t) eqn:?
             end; try congruence; reflexivity.
Qed.

Let line_of := BoundingBox.draw_line float rectangle_drawn.
Let draw := BoundingBox.draw_bounding_boxes float rectangle_drawn.

(** Lines that are all drawn give their rectangles in order, and the
    drawing goes on with what follows them. *)
Lemma draw_bounding_boxes_app (width height : Z) (good rest : list string)
    (rs : list BoundingBox.rectangle) :
  Forall2 (fun l r => line_of width height l = inr r) good rs ->
  draw width height (good ++ rest)
  = ((rs ++ fst (draw width height rest))%list, snd (draw width height rest)).
Proof.
  subst line_of draw.
  induction 1 as [|l r good rs Hl Hg IH].
  - cbn [List.app]. now destruct (BoundingBox.draw_bounding_boxes _ _ _ _ rest).
  - cbn [List.app BoundingBox.draw_bounding_boxes]. rewrite Hl, IH. reflexivity.
Qed.

(** X14. The boxes of a label file are drawn line by line, with no
    handler for an exception: when each line before some line is drawn
    and that line raises (in the unpacking, in [int] on a NaN or an
    infinity, or in [cv2.rectangle]), the loop ends with that exception
    once the rectangles of the lines before it have been drawn, in
    their order, and the lines after it are never read. *)
Theorem draw_bounding_boxes_stops (width height : Z) (good : list string)
    (rs : list BoundingBox.rectangle) (bad : string) (rest : list string)
    (e : BoundingBox.draw_error) :
  Forall2 (fun l r => BoundingBox.draw_line float rectangle_drawn width height l
                      = inr r) good rs ->
  BoundingBox.draw_line float rectangle_drawn width height bad = inl e ->
  BoundingBox.draw_bounding_boxes float rectangle_drawn width height
    (good ++ bad :: rest) = (rs, Some e).
Proof.
  intros Hg Hb.
  pose proof (draw_bounding_boxes_app width height good (bad :: rest) rs Hg) as A.
  unfold draw in A. rewrite A.
  cbn [BoundingBox.draw_bounding_boxes]. rewrite Hb.
  cbn [fst snd]. now rewrite app_nil_r.
Qed.

Lemma split_from_blank (line : string) :
  all_space line = true -> BoundingBox.split_from "" line = [].
Proof.
  induction line as [|c s IH]; [reflexivity|].
  cbn [all_space BoundingBox.split_from]. intros H.
  apply andb_true_iff in H as [Hc Hs]. rewrite Hc. cbn [String.eqb]. auto.
Qed.

(** X15. A line of a label file that is empty or holds white space only
    (a blank line) is not skipped: it splits into no token, and
    unpacking raises the error for not enough values, got 0. *)
Theorem blank_line_raises (line : string) :
  all_space line = true ->
  BoundingBox.split line = []
  /\ BoundingBox.unpack5 float (BoundingBox.split line)
     = inl (BoundingBox.NotEnoughValues 0).
Proof.
  intros H. unfold BoundingBox.split. rewrite (split_from_blank line H).
  split; reflexivity.
Qed.

End LabelLines.

Lemma draw_bounding_boxes_stops_witness :
  BoundingBox.draw_bounding_boxes SampleLabels.float SampleLabels.rectangle_drawn
    640 480
    ([SampleLabels.centred; SampleLabels.centred]
     ++ SampleLabels.not_a_number :: [SampleLabels.centred])
  = ([BoundingBox.mkRectangle 240 120 400 360;
      BoundingBox.mkRectangle 240 120 400 360],
     Some BoundingBox.NaNToInteger).
Proof.
  apply (draw_bounding_boxes_stops SampleLabels.float SampleLabels.rectangle_drawn
           640 480 [SampleLabels.centred; SampleLabels.centred]
           [BoundingBox.mkRectangle 240 120 400 360;
            BoundingBox.mkRectangle 240 120 400 360]
           SampleLabels.not_a_number [SampleLabels.centred]).
  - repeat constructor; vm_compute; reflexivity.
  - vm_compute. reflexivity.
Defined.

Lemma blank_line_raises_witness :
  BoundingBox.split SampleLabels.blank = []
  /\ BoundingBox.unpack5 SampleLabels.float (BoundingBox.split SampleLabels.blank)
     = inl (BoundingBox.NotEnoughValues 0).
Proof.
  apply (blank_line_raises SampleLabels.float SampleLabels.blank). reflexivity.
Defined.

(** ** A record whose fingerprint changed *)

Section Restart.
Variable is_expired : option string -> bool.

Lemma loop_restarts (cc : PyDict.t AppConfig) (ks : list string)
    (url : string) (w : Worker) (c : AppConfig) (h : string)
    (l : list string) (app : MainApp) :
  NoDup l -> In url l ->
  value (for_each l (stop_removed_or_updated is_expired cc ks) app) = Ok tt ->
  PyDict.get url (running_processes app) = Some w ->
  PyDict.get url cc = Some c ->
  is_expired (get_none (expire_date c)) = false ->
  compute_config_hash c = Ok h ->
  PyDict.get url (current_config_hashes app) <> Some h ->
  let o := for_each l (stop_removed_or_updated is_expired cc ks) app in
  exists t1 t2 t3 p,
    trace o = (t1 ++ Terminate (process w) :: t2 ++ Spawn p c :: t3)%list
    /\ PyDict.get url (running_processes (final o)) = Some (mkWorker p c)
    /\ PyDict.get url (current_config_hashes (final o)) = Some h.
Proof.
  intros Hnd Hin Hv Hw Hc He Hh Hne. cbv zeta.
  revert app Hv Hw Hne. induction l as [|x l IH]; intros app Hv Hw Hne;
    [destruct Hin|].
  inversion Hnd as [|? ? Hx Hnd']; subst.
  rewrite for_each_cons in *.
  destruct (value (stop_removed_or_updated is_expired cc ks x app))
    as [[]|e] eqn:Ev; cbn [value final trace] in *; [|discriminate].
  destruct (string_dec x url) as [-> | N].
  - destruct (loop_frame is_expired cc ks l url
                (final (stop_removed_or_updated is_expired cc ks url app)) Hx)
      as [F1 F2].
    rewrite F1, F2. clear F1 F2 IH.
    rewrite stop_removed_or_updated_run in *. rewrite Hw, Hc in *.
    destruct (site (config w)) as [s|]; [|discriminate].
    cbv zeta in *. cbn [removed_or_expired] in *.
    rewrite (compute_config_hash_not_empty c h Hh), He in *. cbn [orb] in *.
    rewrite Hh in *.
    assert (Hd : hash_differs h (PyDict.get url (current_config_hashes app))
                 = true).
    { unfold hash_differs.
      destruct (PyDict.get url (current_config_hashes app)) as [h'|];
        [|reflexivity].
      apply negb_true_iff, String.eqb_neq. congruence. }
    rewrite Hd in *. unfold put_worker.
    cbn [value final trace running_processes current_config_hashes].
    rewrite !get_set_same.
    eexists [_], _, _, _. split; [|split; reflexivity].
    cbn [List.app]. do 2 f_equal. symmetry. exact (app_assoc _ [_] _).
  - destruct Hin as [E | Hin]; [contradiction|].
    assert (N' : url <> x) by congruence.
    destruct (step_frame is_expired cc ks x url app N') as [F1 F2].
    destruct (IH Hnd' Hin (final (stop_removed_or_updated is_expired cc ks x app)))
      as (t1 & t2 & t3 & p & T & A & B); try congruence.
    exists (trace (stop_removed_or_updated is_expired cc ks x app) ++ t1)%list,
      t2, t3, p.
    rewrite T, <- app_assoc. auto.
Qed.

(** The second loop leaves the entries of a running URL as they are. *)
Lemma start_loop_frame (items : list (string * AppConfig)) (url : string)
    (app : MainApp) :
  In url (PyDict.keys (running_processes app)) ->
  PyDict.get url (running_processes
                    (final (for_each items (start_new is_expired) app)))
  = PyDict.get url (running_processes app)
  /\ PyDict.get url (current_config_hashes
                       (final (for_each items (start_new is_expired) app)))
     = PyDict.get url (current_config_hashes app).
Proof.
  revert app; induction items as [|[u c] items IH]; intros app Hin; [auto|].
  assert (F : PyDict.get url (running_processes
                                (final (start_new is_expired (u, c) app)))
              = PyDict.get url (running_processes app)
              /\ PyDict.get url (current_config_hashes
                                   (final (start_new is_expired (u, c) app)))
                 = PyDict.get url (current_config_hashes app)).
  { rewrite start_new_run.
    destruct (is_expired _); [auto|].
    destruct (PyDict.contains u (running_processes app)) eqn:Ec; [auto|].
    assert (N : url <> u).
    { intros ->. apply contains_keys in Hin. congruence. }
    cbv zeta. destruct (compute_config_hash c); simpl;
      rewrite ?get_set_other by assumption; auto. }
  destruct F as [F1 F2].
  rewrite for_each_cons.
  destruct (value (start_new is_expired (u, c) app)); cbn [final]; [|auto].
  destruct (IH (final (start_new is_expired (u, c) app))) as [G1 G2].
  { now apply start_new_keys_mono. }
  split; congruence.
Qed.

(** X16. When the file's record for a running URL is not expired and
    its fingerprint is not the one recorded, a pass that returns
    restarts the worker: the old process is stopped, then, later in the
    pass, a new process is started with the file's record, and at the
    end the URL's entry holds the new process with that record and the
    record's fingerprint. *)
Theorem reload_configurations_restarts
    (configurations : list AppConfig) (app : MainApp)
    (cc : PyDict.t AppConfig) (url : string) (w : Worker) (c : AppConfig)
    (h : string) :
  well_formed app ->
  value (reload_configurations is_expired configurations app) = Ok tt ->
  current_configs_from configurations [] = Ok cc ->
  PyDict.get url (running_processes app) = Some w ->
  PyDict.get url cc = Some c ->
  is_expired (get_none (expire_date c)) = false ->
  compute_config_hash c = Ok h ->
  PyDict.get url (current_config_hashes app) <> Some h ->
  let o := reload_configurations is_expired configurations app in
  exists t1 t2 t3 p,
    trace o = (t1 ++ Terminate (process w) :: t2 ++ Spawn p c :: t3)%list
    /\ PyDict.get url (running_processes (final o)) = Some (mkWorker p c)
    /\ PyDict.get url (current_config_hashes (final o)) = Some h.
Proof.
  intros [Hnd _] Hv Ecc Hw Hc He Hh Hne o. subst o.
  rewrite reload_configurations_run in *. rewrite Ecc in *.
  destruct (current_keys_from configurations) as [ks|]; [|discriminate].
  cbv zeta in *.
  set (l := PyDict.keys (running_processes app)) in *.
  set (o1 := for_each l (stop_removed_or_updated is_expired cc ks) app) in *.
  destruct (value o1) as [[]|e] eqn:Ev1; [|discriminate].
  cbn [value final trace] in *.
  assert (Hin : In url l) by (eapply get_Some_keys; eassumption).
  destruct (loop_restarts cc ks url w c h l app Hnd Hin Ev1 Hw Hc He Hh Hne)
    as (t1 & t2 & t3 & p & T & A & B).
  fold o1 in T, A, B.
  destruct (start_loop_frame cc url (final o1)) as [F1 F2].
  { eapply get_Some_keys; eassumption. }
  exists t1, t2, (t3 ++ trace (for_each cc (start_new is_expired) (final o1)))%list, p.
  rewrite T, F1, F2. split; [|auto].
  rewrite <- !app_assoc. cbn [List.app]. rewrite <- !app_assoc. reflexivity.
Qed.

End Restart.

Lemma reload_configurations_restarts_witness :
  let changed :=
    mkAppConfig (Some "rtsp://cam/1") (Some "yolo11x") (Some (Some "siteA"))
      None (Some (Some [("tok", "en")])) (Some false) None None None in
  let o := reload_configurations Sample.expired_2024 [changed; Sample.cam2]
             SampleState.two_cameras in
  exists t1 t2 t3 p,
    trace o = (t1 ++ Terminate 0 :: t2 ++ Spawn p changed :: t3)%list
    /\ PyDict.get "rtsp://cam/1" (running_processes (final o))
       = Some (mkWorker p changed)
    /\ PyDict.get "rtsp://cam/1" (current_config_hashes (final o))
       = Some "{'video_url': 'rtsp://cam/1', 'model_key': 'yolo11x', 'site': 'siteA', 'stream_name': 'prediction_visual', 'notifications': {'tok': 'en'}, 'detect_with_server': False}".
Proof.
  intros changed.
  apply (reload_configurations_restarts Sample.expired_2024
           [changed; Sample.cam2] SampleState.two_cameras
           [("rtsp://cam/1", changed); ("rtsp://cam/2", Sample.cam2)]
           "rtsp://cam/1" (mkWorker 0 Sample.cam1) changed).
  - split.
    + repeat constructor; simpl; intuition discriminate.
    + simpl. intros url [<- | [<- | []]]; discriminate.
  - reflexivity.
  - reflexivity.
  - reflexivity.
  - reflexivity.
  - reflexivity.
  - reflexivity.
  - discriminate.
Defined.
